(** * A shallow embedding of the JP2 box walker of codestream-parser

    The embedded code is [src/jp2box.py] (class [JP2Box]) together with the
    helpers it imports from [src/jp2utils.py] ([ordb], [ordl], [ordq], the
    exceptions, and the [Buffer] file substitute, whose [read], [tell] and
    [seek] behave like those of a Python file).

    The code is Python 2 code: [boxname] uses [string.letters] and
    [string.index], which exist only there, and [ordb] has a Python 2 branch.
    The model follows Python 2 semantics, with [string.letters] in the
    default C locale.  A Python 2 [str] is a string of bytes; a byte is an
    [ascii] character (8 bits) and a byte string a [list ascii].  Python
    integers are [Z].

    The byte source [infile] is one shared object: the walker, the handler
    it calls, and any walker the handler starts over a sub-scope all move
    the same cursor.  It is a field pair of the walker state (contents and
    cursor); the handler is given the walker state and hands back the cursor
    where it leaves the source.  Printing is modelled only as far as
    [new_box] reports each box (offset of the box and its type tag); the
    indentation it changes only affects layout. *)

From Stdlib Require Import ZArith List Bool Ascii String Lia.
Import ListNotations.
Open Scope Z_scope.

(** ** Exceptions raised by the code *)

Inductive exn :=
  | UnexpectedEOF                 (** jp2utils.UnexpectedEOF *)
  | InvalidBoxLength (box : string) (** jp2utils.InvalidBoxLength(box) *)
  | UnicodeDecodeError            (** from [.decode('ascii')] *)
  | IndexError                    (** subscript out of range *)
  | StructError.                  (** [struct.error] from [struct.unpack] *)

(** ** Byte helpers of jp2utils *)

(** [ordb]: [struct.unpack('B', buf)[0]] on a one-byte string. *)
Definition ordb (c : ascii) : Z := Z.of_N (N_of_ascii c).

(** Big-endian value of a byte string. *)
Definition be_value (bs : list ascii) : Z :=
  fold_left (fun acc c => acc * 256 + ordb c) bs 0.

(** [ordl]: [struct.unpack('>L', buf)[0]]; [struct.unpack] requires a
    string of exactly the format's size and raises [struct.error] otherwise. *)
Definition ordl (buf : list ascii) : exn + Z :=
  if Nat.eqb (List.length buf) 4 then inr (be_value buf) else inl StructError.

(** [ordq]: [struct.unpack('>Q', buf)[0]]. *)
Definition ordq (buf : list ascii) : exn + Z :=
  if Nat.eqb (List.length buf) 8 then inr (be_value buf) else inl StructError.

(** [s.decode('ascii')] on a Python 2 byte string: fails on any byte of
    value 128 or more; otherwise the code points are the byte values. *)
Definition decode_ascii (bs : list ascii) : exn + list ascii :=
  if forallb (fun c => ordb c <? 128) bs then inr bs else inl UnicodeDecodeError.

(** Python slicing [s[i:j]] for [0 <= i]. *)
Definition slice (s : list ascii) (i j : nat) : list ascii :=
  firstn (j - i) (skipn i s).

(** ** [JP2Box.boxname] *)

(** [string.letters + string.digits] (C locale). *)
Definition letters_digits : string :=
  "abcdefghijklmnopqrstuvwxyzABCDEFGHIJKLMNOPQRSTUVWXYZ0123456789".

Definition hex_digits : string := "0123456789abcdef".

(** ["%02x" % v] for [0 <= v < 256]. *)
Definition hex2 (v : Z) : string :=
  match get (Z.to_nat (v / 16)) hex_digits, get (Z.to_nat (v mod 16)) hex_digits with
  | Some a, Some b => String a (String b EmptyString)
  | _, _ => EmptyString
  end.

(** How the body of the [try] block ended. *)
Inductive try_outcome :=
  | TryReturned
  | TryValueError
  | TryRaised (e : exn).

(** [for i in range(4): string.index(string.letters + string.digits, id[i])]:
    [id[i]] raises [IndexError] past the end of [id], and [string.index]
    raises [ValueError] when the character is not found. *)
Fixpoint index_chars (id : list ascii) (is : list nat) : try_outcome :=
  match is with
  | [] => TryReturned
  | i :: is' =>
      match nth_error id i with
      | None => TryRaised IndexError
      | Some c =>
          match index 0 (String c EmptyString) letters_digits with
          | None => TryValueError
          | Some _ => index_chars id is'
          end
      end
  end.

Definition boxname (id : list ascii) : exn + string :=
  match index_chars id [0; 1; 2; 3]%nat with
  | TryReturned => inr (string_of_list_ascii id)
  | TryRaised e => inl e
  | TryValueError =>
      (* "0x%02x%02x%02x%02x" % (ordb(id[0]), ordb(id[1]), ordb(id[2]), ordb(id[3])) *)
      match nth_error id 0, nth_error id 1, nth_error id 2, nth_error id 3 with
      | Some a, Some b, Some c, Some d =>
          inr ("0x" ++ hex2 (ordb a) ++ hex2 (ordb b) ++ hex2 (ordb c) ++ hex2 (ordb d))%string
      | _, _, _, _ => inl IndexError
      end
  end.

(** ** [JP2Box.parse_string_header] *)

(** Returns [(buf, length, id)] or raises. *)
Definition parse_string_header (buf : list ascii) : exn + (list ascii * Z * list ascii) :=
  match ordl buf with
  | inl e => inl e
  | inr length =>
      let id := slice buf 4 8 in
      let buf := slice buf 8 (List.length buf) in
      if length =? 1 then
        let xlength := slice buf 0 8 in
        let buf := slice buf 8 (List.length buf) in
        if Nat.ltb (List.length xlength) 8 then inl UnexpectedEOF
        else match ordq xlength with
             | inl e => inl e
             | inr length =>
                 if length <? 16 then
                   match boxname id with
                   | inl e => inl e
                   | inr n => inl (InvalidBoxLength n)
                   end
                 else inr (buf, length - 16, id)
             end
      else if (0 <? length) && (length <? 8) then
        match boxname id with
        | inl e => inl e
        | inr n => inl (InvalidBoxLength n)
        end
      else if 0 <? length then inr (buf, length - 8, id)
      else inr (buf, length, id)
  end.

(** ** The walker state: a [JP2Box] instance and its shared [infile] *)

Record jbox := mkJbox {
  infile_data : list ascii;  (** contents of [self.infile] *)
  infile_pos : Z;            (** [self.infile.tell()] *)
  offset : Z;
  box_end : Z;               (** [self.end] *)
  hdrsize : Z;
  boxsize : Z;
  target : Z;
  bodysize : Z;
  printed : list (Z * list ascii)  (** boxes reported by [new_box] *)
}.

Definition set_pos (s : jbox) (p : Z) : jbox :=
  mkJbox (infile_data s) p (offset s) (box_end s) (hdrsize s) (boxsize s)
         (target s) (bodysize s) (printed s).
Definition set_offset (s : jbox) (o : Z) : jbox :=
  mkJbox (infile_data s) (infile_pos s) o (box_end s) (hdrsize s) (boxsize s)
         (target s) (bodysize s) (printed s).
Definition set_hdrsize (s : jbox) (h : Z) : jbox :=
  mkJbox (infile_data s) (infile_pos s) (offset s) (box_end s) h (boxsize s)
         (target s) (bodysize s) (printed s).
Definition set_boxsize (s : jbox) (n : Z) : jbox :=
  mkJbox (infile_data s) (infile_pos s) (offset s) (box_end s) (hdrsize s) n
         (target s) (bodysize s) (printed s).
Definition set_target (s : jbox) (t : Z) : jbox :=
  mkJbox (infile_data s) (infile_pos s) (offset s) (box_end s) (hdrsize s)
         (boxsize s) t (bodysize s) (printed s).
Definition set_bodysize (s : jbox) (n : Z) : jbox :=
  mkJbox (infile_data s) (infile_pos s) (offset s) (box_end s) (hdrsize s)
         (boxsize s) (target s) n (printed s).
Definition set_printed (s : jbox) (l : list (Z * list ascii)) : jbox :=
  mkJbox (infile_data s) (infile_pos s) (offset s) (box_end s) (hdrsize s)
         (boxsize s) (target s) (bodysize s) l.

(** [JP2Box(box, infile, offs)]: a walker over the whole source when [box]
    is [None], over the body of [box] otherwise; both share [infile]. *)
Definition new_jbox (box : option jbox) (data : list ascii) (pos offs : Z) : jbox :=
  match box with
  | None => mkJbox data pos 0 0 0 0 0 0 []
  | Some p => mkJbox data pos (offset p + offs) (target p) 0 0 0 0 []
  end.

(** ** A state and exception monad over the walker *)

Definition M (A : Type) : Type := jbox -> (exn + A) * jbox.

Definition ret {A} (a : A) : M A := fun s => (inr a, s).
Definition bind {A B} (m : M A) (k : A -> M B) : M B :=
  fun s => match m s with
           | (inl e, s') => (inl e, s')
           | (inr a, s') => k a s'
           end.
Definition raise {A} (e : exn) : M A := fun s => (inl e, s).
Definition lift {A} (r : exn + A) : M A := fun s => (r, s).
Definition get_self : M jbox := fun s => (inr s, s).
Definition modify (f : jbox -> jbox) : M unit := fun s => (inr tt, f s).

Notation "x <- m ;; k" := (bind m (fun x => k))
  (at level 61, m at next level, right associativity).
Notation "m ;;; k" := (bind m (fun _ => k))
  (at level 61, right associativity).

(** *** The file operations *)

Definition tell : M Z := fun s => (inr (infile_pos s), s).

(** [infile.read(n)]: at most [n] bytes from the cursor; the cursor moves
    past what was returned. *)
Definition read (n : Z) : M (list ascii) :=
  fun s =>
    let chunk := firstn (Z.to_nat n) (skipn (Z.to_nat (infile_pos s)) (infile_data s)) in
    (inr chunk, set_pos s (infile_pos s + Z.of_nat (List.length chunk))).

(** [infile.read()]: everything from the cursor to the end of the source. *)
Definition read_all : M (list ascii) :=
  fun s =>
    let chunk := skipn (Z.to_nat (infile_pos s)) (infile_data s) in
    (inr chunk, set_pos s (infile_pos s + Z.of_nat (List.length chunk))).

Definition seek (where_ : Z) : M unit := modify (fun s => set_pos s where_).

(** ** [JP2Box.parse_header] *)

(** Its three results: [[]], [(id,)] and [(length, id)]. *)
Inductive header :=
  | NoBox
  | Sentinel (id : list ascii)
  | Sized (length : Z) (id : list ascii).

Definition raise_invalid_length {A} (id : list ascii) : M A :=
  n <- lift (boxname id) ;; raise (InvalidBoxLength n).

(** Lines 100-120 of [parse_header], after the type tag: the [XLBox] and
    the classification of the length field. *)
Definition read_xlbox (length : Z) (id : list ascii) : M header :=
  let found (length : Z) : M header :=
    modify (fun s => set_boxsize s length) ;;; ret (Sized length id) in
  if length =? 1 then
    (xlength <- read 8 ;;
     modify (fun s => set_hdrsize (set_offset s (offset s + 8)) 16) ;;;
     if Nat.ltb (List.length xlength) 8 then raise UnexpectedEOF
     else
     length <- lift (ordq xlength) ;;
     if length <? 16 then raise_invalid_length id
     else found (length - 16))
  else if (0 <? length) && (length <? 8) then raise_invalid_length id
  else if 0 <? length then found (length - 8)
  else if length =? 0 then ret (Sentinel id)
  else found length.

(** Lines 88-120 of [parse_header]: the [LBox], the [TBox] and the rest. *)
Definition read_box_header : M header :=
  lbuf <- read 4 ;;
  if Nat.eqb (List.length lbuf) 0 then ret NoBox
  else if Nat.ltb (List.length lbuf) 4 then raise UnexpectedEOF
  else
  length <- lift (ordl lbuf) ;;
  raw <- read 4 ;;
  id <- lift (decode_ascii raw) ;;
  if Nat.ltb (List.length id) 4 then raise UnexpectedEOF
  else
  modify (fun s => set_hdrsize (set_offset s (offset s + 8)) 8) ;;;
  read_xlbox length id.

Definition parse_header : M header :=
  self <- get_self ;;
  if (0 <? box_end self) && (infile_pos self =? box_end self) then ret NoBox
  else if (0 <? box_end self) && (box_end self <? infile_pos self) then
    raise (InvalidBoxLength "unknown box")
  else read_box_header.

(** ** [JP2Box.readbody] *)

Definition readbody : M (list ascii) :=
  self <- get_self ;;
  if 0 <? bodysize self then read (bodysize self) else read_all.

(** ** [JP2Box.parse] *)

(** The description string passed to the hook: ["all up to EOF"] or
    ["%d" % length]. *)
Inductive desc :=
  | AllUpToEOF
  | Decimal (n : Z).

(** The hook [hook(self, id, description)]: any computation on the walker
    context that may read or seek the shared source (or start a walk over a
    sub-scope on it) and either returns or raises; what it yields is the
    exception it raised, if any, and the cursor where it left the source. *)
Definition hook : Type := jbox -> list ascii -> desc -> option exn * Z.

Definition call_hook (h : hook) (id : list ascii) (d : desc) : M unit :=
  fun s => let '(r, p) := h s id d in
           (match r with None => inr tt | Some e => inl e end, set_pos s p).

(** [new_box] prints the box's start offset and its type tag. *)
Definition new_box (id : list ascii) : M unit :=
  modify (fun s => set_printed s (printed s ++ [(offset s - hdrsize s, id)])).

(** [end_box] only restores the indentation and prints an empty line. *)
Definition end_box : M unit := ret tt.

(** One iteration of the [while True] loop; [false] is its [return],
    [true] that the loop goes on. *)
Definition parse_step (h : hook) : M bool :=
  hdr <- parse_header ;;
  match hdr with
  | NoBox => ret false
  | Sentinel id =>
      new_box id ;;; call_hook h id AllUpToEOF ;;; end_box ;;; ret true
  | Sized length id =>
      modify (fun s => set_bodysize s length) ;;;
      t <- tell ;;
      modify (fun s => set_target s (t + length)) ;;;
      new_box id ;;;
      call_hook h id (Decimal length) ;;;
      self <- get_self ;;
      seek (target self) ;;;
      modify (fun s => set_offset s (offset s + length)) ;;;
      end_box ;;; ret true
  end.

(** The loop, run for at most [fuel] iterations: [true] when [parse]
    returned, [false] when the fuel ran out first. *)
Fixpoint parse (fuel : nat) (h : hook) : M bool :=
  match fuel with
  | O => ret false
  | S n => more <- parse_step h ;; if more then parse n h else ret true
  end.

(** ** Definitions following the spec's words *)

(** An ASCII letter or digit, by its byte value (spec: "ASCII letters or
    digits"). *)
Definition spec_is_alnum (c : ascii) : bool :=
  let v := ordb c in
  ((97 <=? v) && (v <=? 122)) || ((65 <=? v) && (v <=? 90)) || ((48 <=? v) && (v <=? 57)).

(** The lower-case hexadecimal digit of [0 <= d < 16]. *)
Definition spec_hex_digit (d : Z) : string :=
  match get (Z.to_nat d) hex_digits with
  | Some a => String a EmptyString
  | None => EmptyString
  end.

(** The [k]-digit big-endian hexadecimal representation of [n]. *)
Fixpoint spec_hex (k : nat) (n : Z) : string :=
  match k with
  | O => EmptyString
  | S k' => (spec_hex k' (n / 16) ++ spec_hex_digit (n mod 16))%string
  end.

(** Byte strings written by their byte values. *)
Definition bytes_of (l : list Z) : list ascii := map (fun z => ascii_of_N (Z.to_N z)) l.

(** ** The [Buffer] class of jp2utils *)

(** A Python index [i] into a sequence of length [n], as slicing
    normalises it: negative indices count from the end, and the result is
    clamped to [0, n]. *)
Definition py_index (n i : Z) : Z :=
  if i <? 0 then Z.max 0 (i + n) else Z.min i n.

(** Python slicing [s[i:j]] (step 1). *)
Definition py_slice (s : list ascii) (i j : Z) : list ascii :=
  let n := Z.of_nat (List.length s) in
  let i' := py_index n i in
  let j' := py_index n j in
  firstn (Z.to_nat (j' - i')) (skipn (Z.to_nat i') s).

Record Buffer := mkBuffer {
  buf_offset : Z;            (** [self.offset] *)
  buf_buffer : list ascii    (** [self.buffer] *)
}.

Definition eof_reached (b : Buffer) : bool :=
  Z.of_nat (List.length (buf_buffer b)) <=? buf_offset b.

Definition rest_len (b : Buffer) : Z :=
  Z.of_nat (List.length (buf_buffer b)) - buf_offset b.

(** [Buffer.read(length=-1)]: the bytes returned and the buffer after. *)
Definition buffer_read (length : Z) (b : Buffer) : list ascii * Buffer :=
  if eof_reached b then ([], b)
  else
    let length := if (length =? -1) || (rest_len b <? length) then rest_len b
                  else length in
    let ret := py_slice (buf_buffer b) (buf_offset b) (buf_offset b + length) in
    (ret, mkBuffer (buf_offset b + length) (buf_buffer b)).

Definition buffer_tell (b : Buffer) : Z := buf_offset b.

Definition buffer_seek (where_ : Z) (b : Buffer) : Buffer := mkBuffer where_ (buf_buffer b).

(** ** The other byte packers of jp2utils *)

(** [ordw]: [struct.unpack('>H', buf)[0]]. *)
Definition ordw (buf : list ascii) : exn + Z :=
  if Nat.eqb (List.length buf) 2 then inr (be_value buf) else inl StructError.

(** Little-endian value of a byte string: the first byte is the least
    significant one. *)
Definition le_value (bs : list ascii) : Z :=
  fold_right (fun c acc => ordb c + acc * 256) 0 bs.

(** [lordw], [lordl], [lordq]: [struct.unpack] with ['<H'], ['<L'], ['<Q']. *)
Definition lordw (buf : list ascii) : exn + Z :=
  if Nat.eqb (List.length buf) 2 then inr (le_value buf) else inl StructError.
Definition lordl (buf : list ascii) : exn + Z :=
  if Nat.eqb (List.length buf) 4 then inr (le_value buf) else inl StructError.
Definition lordq (buf : list ascii) : exn + Z :=
  if Nat.eqb (List.length buf) 8 then inr (le_value buf) else inl StructError.

(** The [k] big-endian bytes of [i]. *)
Fixpoint be_bytes (k : nat) (i : Z) : list ascii :=
  match k with
  | O => []
  | S k' => be_bytes k' (i / 256) ++ [ascii_of_N (Z.to_N (i mod 256))]
  end.

(** [chrl]: [struct.pack('>L', i)]; Python 2 raises [struct.error] for an
    integer outside the format's range. *)
Definition chrl (i : Z) : exn + list ascii :=
  if (0 <=? i) && (i <? 2 ^ 32) then inr (be_bytes 4 i) else inl StructError.

(** [chrq]: [struct.pack('>Q', i)]. *)
Definition chrq (i : Z) : exn + list ascii :=
  if (0 <=? i) && (i <? 2 ^ 64) then inr (be_bytes 8 i) else inl StructError.

(** [buf[i]] on a byte string, for [0 <= i]. *)
Definition py_getitem (buf : list ascii) (i : nat) : exn + ascii :=
  match nth_error buf i with
  | Some c => inr c
  | None => inl IndexError
  end.

Definition sbind {A B} (r : exn + A) (k : A -> exn + B) : exn + B :=
  match r with
  | inl e => inl e
  | inr a => k a
  end.

(** [version(buf)]: [ordb(buf[0])]. *)
Definition version (buf : list ascii) : exn + Z :=
  sbind (py_getitem buf 0) (fun c => inr (ordb c)).

(** [flags(buf)]: the bytes 1 to 3 as a 24-bit big-endian value. *)
Definition flags (buf : list ascii) : exn + Z :=
  sbind (py_getitem buf 1) (fun b1 =>
  sbind (py_getitem buf 2) (fun b2 =>
  sbind (py_getitem buf 3) (fun b3 =>
  inr (Z.shiftl (ordb b1) 16 + Z.shiftl (ordb b2) 8 + Z.shiftl (ordb b3) 0)))).

(** ** [fromCString] *)

(** ["%03o" % ch] for [0 <= ch < 512]. *)
Definition oct3 (ch : Z) : string :=
  String (ascii_of_N (Z.to_N (48 + ch / 64)))
    (String (ascii_of_N (Z.to_N (48 + (ch / 8) mod 8)))
      (String (ascii_of_N (Z.to_N (48 + ch mod 8))) EmptyString)).

Definition backslash : ascii := "092"%char.

(** The loop of [fromCString] from the byte at hand, with [res] built so
    far. *)
Fixpoint fromCString_loop (buf : list ascii) (res : string) : string :=
  match buf with
  | [] => res
  | c :: rest =>
      let ch := ordb c in
      if ch =? 0 then res
      else if (ch <? 32) || (127 <? ch) then
        fromCString_loop rest (res ++ String backslash (oct3 ch))
      else fromCString_loop rest (res ++ String (ascii_of_N (Z.to_N ch)) EmptyString)
  end.

Definition fromCString (buf : list ascii) : string := fromCString_loop buf "".

(** ** [secsToTime] *)

(** The [leap] flag as the loop body computes it for [year]: the second
    and third tests look at [leap] (still [False], that is 0), not at
    [year]. *)
Definition leap_of (year : Z) : bool :=
  let leap := false in
  if year mod 400 =? 0 then true
  else if Z.b2z leap mod 100 =? 0 then false
  else if Z.b2z leap mod 4 =? 0 then true
  else leap.

(** The [while True] loop over the years, run for at most [fuel]
    iterations ([None] when the fuel ran out); its result is [year],
    [total] and [leap] at the [break]. *)
Fixpoint year_loop (fuel : nat) (year total : Z) : option (Z * Z * bool) :=
  match fuel with
  | O => None
  | S f =>
      let leap := leap_of year in
      let daysperyear := if leap then 366 else 365 in
      if total <? daysperyear then Some (year, total, leap)
      else year_loop f (year + 1) (total - daysperyear)
  end.

Definition dayspermonth0 : list Z := [31; 28; 31; 30; 31; 30; 31; 31; 30; 31; 30; 31].

Definition monthnames : list string :=
  ["Jan"; "Feb"; "Mar"; "Apr"; "Mai"; "Jun"; "Jul"; "Aug"; "Sep"; "Oct"; "Nov"; "Dez"]%string.

(** [l[i] = v] on a Python list, for [i] in range. *)
Fixpoint list_set {A} (l : list A) (i : nat) (v : A) : list A :=
  match l, i with
  | [], _ => []
  | _ :: l', O => v :: l'
  | x :: l', S i' => x :: list_set l' i' v
  end.

(** The [for t in dayspermonth] loop: [month] and [total] at its end. *)
Fixpoint month_loop (ds : list Z) (month total : Z) : Z * Z :=
  match ds with
  | [] => (month, total)
  | t :: ds' => if total <? t then (month, total) else month_loop ds' (month + 1) (total - t)
  end.

(** [secsToTime(total)] up to the final string formatting: the arguments
    [(hours, minutes, seconds, total + 1, monthnames[month], year)] of the
    format ["%02d:%02d:%02d %2d-%s-%4d"], or the [IndexError] of
    [monthnames[month]].  [/] is floor division (the module does not
    import [division]).  The year loop gets one iteration per day, more
    than it can use; [None] would mean that was not enough. *)
Definition secsToTime (total : Z) : option (exn + (Z * Z * Z * Z * string * Z)) :=
  let seconds := total mod 60 in
  let total := total / 60 in
  let minutes := total mod 60 in
  let total := total / 60 in
  let hours := total mod 24 in
  let total := total / 24 in
  match year_loop (S (Z.to_nat total)) 1904 total with
  | None => None
  | Some (year, total, leap) =>
      let dayspermonth := if leap then list_set dayspermonth0 1 29 else dayspermonth0 in
      let '(month, total) := month_loop dayspermonth 0 total in
      Some (match nth_error monthnames (Z.to_nat month) with
            | Some name => inr (hours, minutes, seconds, total + 1, name, year)
            | None => inl IndexError
            end)
  end.

(** ** Byte sources made of boxes *)

(** A box with a 4-byte length field [8 + len(body)], its type tag and its
    body. *)
Definition encode_box (tag body : list ascii) : list ascii :=
  be_bytes 4 (8 + Z.of_nat (List.length body)) ++ tag ++ body.

Definition encode_boxes (boxes : list (list ascii * list ascii)) : list ascii :=
  List.concat (map (fun tb => encode_box (fst tb) (snd tb)) boxes).

(** What [new_box] reports for consecutive boxes starting at offset [o]. *)
Fixpoint box_starts (o : Z) (boxes : list (list ascii * list ascii)) : list (Z * list ascii) :=
  match boxes with
  | [] => []
  | (tag, body) :: bs => (o, tag) :: box_starts (o + 8 + Z.of_nat (List.length body)) bs
  end.

(** A box the walker decodes as given: a 4-byte ASCII type tag and a
    length field that fits in 32 bits. *)
Definition well_formed_box (tb : list ascii * list ascii) : Prop :=
  List.length (fst tb) = 4%nat /\ forallb (fun c => ordb c <? 128) (fst tb) = true /\
  8 + Z.of_nat (List.length (snd tb)) < 2 ^ 32.

(** ** [convert_hex] and [print_hex] *)

(** [" " * n]: empty for [n <= 0]. *)
Fixpoint spaces_nat (n : nat) : string :=
  match n with O => EmptyString | S n' => String " "%char (spaces_nat n') end.

Definition spaces (n : Z) : string := spaces_nat (Z.to_nat n).

(** The loop variables of [convert_hex]. *)
Record hex_state := mkHexState {
  hs_lines : list string;
  hs_line : string;
  hs_buff : string;
  hs_indent : Z
}.

(** The printable rendering of a byte in the text column. *)
Definition text_char (c : ascii) : string :=
  if (32 <=? ordb c) && (ordb c <? 127) then String c EmptyString else "."%string.

(** One iteration of [for i in range(len(buf))], for the byte [c] at index
    [i]. *)
Definition convert_hex_step (sec_indent : Z) (plain_text : bool) (st : hex_state)
    (ic : nat * ascii) : hex_state :=
  let '(i, c) := ic in
  let st :=
    if Nat.eqb (i mod 16) 0 then
      let st :=
        if Nat.eqb i 0 then st
        else mkHexState (hs_lines st ++ [if plain_text then (hs_line st ++ hs_buff st)%string
                                         else hs_line st])
                        "" "  " sec_indent in
      mkHexState (hs_lines st) (hs_line st ++ spaces (hs_indent st)) (hs_buff st)
                 (hs_indent st)
    else st in
  let buff := (hs_buff st ++ text_char c)%string in
  let line := (hs_line st ++ hex2 (ordb c) ++ " ")%string in
  mkHexState (hs_lines st) line buff (hs_indent st).

(** [convert_hex(buf, indent, sec_indent, plain_text, single_line=False)]:
    the list of lines. *)
Definition convert_hex_lines (buf : list ascii) (indent sec_indent : Z) (plain_text : bool)
    : list string :=
  let sec_indent := if sec_indent =? -1 then indent else sec_indent in
  let st := fold_left (convert_hex_step sec_indent plain_text)
              (combine (seq 0 (List.length buf)) buf) (mkHexState [] "" "  " indent) in
  let line :=
    if plain_text then
      (hs_line st ++ spaces (3 * ((16 - Z.of_nat (List.length buf) mod 16) mod 16)) ++
       hs_buff st)%string
    else hs_line st in
  hs_lines st ++ [line].

(** [convert_hex] with [single_line] True joins the lines with a space. *)
Definition convert_hex (buf : list ascii) (indent sec_indent : Z) (plain_text single_line : bool)
    : string + list string :=
  let lines := convert_hex_lines buf indent sec_indent plain_text in
  if single_line then inl (String.concat " "%string lines) else inr lines.

(** [print_hex(buf, indent, sec_indent, plain_text=True)]: the printed
    lines. *)
Definition print_hex (buf : list ascii) (indent sec_indent : Z) (plain_text : bool) : list string :=
  match convert_hex buf indent sec_indent plain_text false with
  | inl _ => []
  | inr lines => lines
  end.

(** The hex dump described line by line: the bytes cut into rows of 16,
    each row indented, its bytes in hex, and with [plain_text] the row's
    text column after padding to the width of a full row. *)
Fixpoint rows_fuel (fuel : nat) (l : list ascii) : list (list ascii) :=
  match fuel, l with
  | O, _ => []
  | _, [] => []
  | S f, _ => firstn 16 l :: rows_fuel f (skipn 16 l)
  end.

Definition rows16 (l : list ascii) : list (list ascii) := rows_fuel (List.length l) l.

Fixpoint hex_fields (row : list ascii) : string :=
  match row with [] => EmptyString | c :: r => (hex2 (ordb c) ++ " " ++ hex_fields r)%string end.

Fixpoint text_fields (row : list ascii) : string :=
  match row with [] => EmptyString | c :: r => (text_char c ++ text_fields r)%string end.

Definition hex_row (indent : Z) (plain_text : bool) (row : list ascii) : string :=
  (spaces indent ++ hex_fields row ++
   (if plain_text
    then spaces (3 * (16 - Z.of_nat (List.length row))) ++ "  " ++ text_fields row
    else ""))%string.

(** ** Lemmas about the monad and the file *)

Lemma bind_inr {A B} (m : M A) (k : A -> M B) s a s' :
  m s = (inr a, s') -> bind m k s = k a s'.
Proof. unfold bind; intros ->; reflexivity. Qed.

Lemma bind_inl {A B} (m : M A) (k : A -> M B) s e s' :
  m s = (inl e, s') -> bind m k s = (inl e, s').
Proof. unfold bind; intros ->; reflexivity. Qed.

Lemma bind_get {B} (k : jbox -> M B) s : bind get_self k s = k s s.
Proof. reflexivity. Qed.

Lemma bind_modify {B} f (k : unit -> M B) s : bind (modify f) k s = k tt (f s).
Proof. reflexivity. Qed.

Lemma bind_lift_inr {A B} (a : A) (k : A -> M B) s : bind (lift (inr a)) k s = k a s.
Proof. reflexivity. Qed.

Lemma bind_ret {A B} (a : A) (k : A -> M B) s : bind (ret a) k s = k a s.
Proof. reflexivity. Qed.

Lemma bind_assoc {A B C} (m : M A) (k : A -> M B) (k' : B -> M C) s :
  bind (bind m k) k' s = bind m (fun a => bind (k a) k') s.
Proof. unfold bind; destruct (m s) as [[e|a] s']; reflexivity. Qed.

(** Reading [n] bytes when at least [n] are available. *)
Lemma read_prefix s n xs ys :
  0 <= n ->
  skipn (Z.to_nat (infile_pos s)) (infile_data s) = xs ++ ys ->
  List.length xs = Z.to_nat n ->
  read n s = (inr xs, set_pos s (infile_pos s + n)).
Proof.
  intros Hn Hs Hl. unfold read. rewrite Hs, <- Hl, firstn_app, Nat.sub_diag,
    firstn_all; simpl. rewrite app_nil_r, Hl, Z2Nat.id by lia. reflexivity.
Qed.

(** Reading [n] bytes when fewer are available returns them all. *)
Lemma read_short s n :
  (List.length (skipn (Z.to_nat (infile_pos s)) (infile_data s)) <= Z.to_nat n)%nat ->
  read n s = (inr (skipn (Z.to_nat (infile_pos s)) (infile_data s)),
              set_pos s (infile_pos s + Z.of_nat (List.length
                 (skipn (Z.to_nat (infile_pos s)) (infile_data s))))).
Proof.
  intros Hl. unfold read. rewrite firstn_all2 by exact Hl. reflexivity.
Qed.

Lemma skipn_after s n xs ys :
  0 <= infile_pos s -> 0 <= n ->
  skipn (Z.to_nat (infile_pos s)) (infile_data s) = xs ++ ys ->
  List.length xs = Z.to_nat n ->
  skipn (Z.to_nat (infile_pos s + n)) (infile_data s) = ys.
Proof.
  intros Hp Hn Hs Hl. rewrite Z2Nat.inj_add by lia.
  rewrite Nat.add_comm, <- skipn_skipn, Hs, <- Hl, skipn_app, Nat.sub_diag,
    skipn_all; reflexivity.
Qed.

(** ** Lemmas about [boxname] *)

Lemma index_letters_digits (c : ascii) :
  match index 0 (String c EmptyString) letters_digits with
  | Some _ => true
  | None => false
  end = spec_is_alnum c.
Proof.
  destruct c as [[] [] [] [] [] [] [] []]; vm_compute; reflexivity.
Qed.

Lemma str_append_assoc (a b c : string) :
  ((a ++ b) ++ c)%string = (a ++ (b ++ c))%string.
Proof. induction a as [|x a IH]; simpl; [reflexivity | now rewrite IH]. Qed.

Lemma hex_digits_get (m : nat) :
  (m < 16)%nat -> exists a, get m hex_digits = Some a.
Proof.
  intros Hm. do 16 (destruct m as [|m]; [eexists; reflexivity|]). lia.
Qed.

Lemma spec_hex_two k n v :
  0 <= v < 256 ->
  spec_hex (S (S k)) (n * 256 + v) = (spec_hex k n ++ hex2 v)%string.
Proof.
  intros Hv. cbn [spec_hex]. rewrite str_append_assoc.
  replace ((n * 256 + v) / 16 / 16) with n.
  2:{ rewrite Z.div_div by lia. change (16 * 16) with 256.
      rewrite Z.div_add_l by lia. rewrite Z.div_small by lia. lia. }
  f_equal. unfold hex2, spec_hex_digit.
  replace ((n * 256 + v) / 16 mod 16) with (v / 16).
  2:{ replace (n * 256 + v) with (v + (n * 16) * 16) by lia.
      rewrite Z.div_add by lia.
      rewrite Z.add_mod by lia.
      replace (n * 16 mod 16) with 0 by (rewrite Z.mod_mul; lia).
      rewrite Z.add_0_r, Z.mod_mod by lia.
      rewrite Z.mod_small; [reflexivity|].
      split; [apply Z.div_pos; lia | apply Z.div_lt_upper_bound; lia]. }
  replace ((n * 256 + v) mod 16) with (v mod 16).
  2:{ replace (n * 256 + v) with (v + (n * 16) * 16) by lia.
      rewrite Z.mod_add by lia. reflexivity. }
  assert (H1 : (Z.to_nat (v / 16) < 16)%nat).
  { assert (v / 16 < 16) by (apply Z.div_lt_upper_bound; lia).
    assert (0 <= v / 16) by (apply Z.div_pos; lia). lia. }
  assert (H2 : (Z.to_nat (v mod 16) < 16)%nat).
  { assert (0 <= v mod 16 < 16) by (apply Z.mod_pos_bound; lia). lia. }
  destruct (hex_digits_get _ H1) as [a1 ->].
  destruct (hex_digits_get _ H2) as [a2 ->]. reflexivity.
Qed.

Lemma ordb_range (c : ascii) : 0 <= ordb c < 256.
Proof. unfold ordb. pose proof (N_ascii_bounded c). lia. Qed.

Lemma boxname_hex (a b c d : ascii) :
  ("0x" ++ hex2 (ordb a) ++ hex2 (ordb b) ++ hex2 (ordb c) ++ hex2 (ordb d))%string
  = ("0x" ++ spec_hex 8 (be_value [a; b; c; d]))%string.
Proof.
  f_equal. unfold be_value; cbn [fold_left].
  pose proof (ordb_range a); pose proof (ordb_range b);
  pose proof (ordb_range c); pose proof (ordb_range d).
  rewrite (spec_hex_two 6) by lia. rewrite (spec_hex_two 4) by lia.
  rewrite (spec_hex_two 2) by lia.
  replace (0 * 256 + ordb a) with (0 * 256 + ordb a) by reflexivity.
  rewrite (spec_hex_two 0) by lia. cbn [spec_hex append].
  rewrite !str_append_assoc. reflexivity.
Qed.

(** ** The claims *)

(** C9: for every 4-byte type tag, [boxname] returns the tag itself when its
    four bytes are all ASCII letters or digits and otherwise ["0x"] followed
    by the 8-hex-digit big-endian value of the four bytes; it never raises
    on such a tag.  ["jp2h"] renders as ["jp2h"] and the bytes
    [{0x00,0x01,0x02,0x03}] as ["0x00010203"]. *)
Theorem boxname_renders (a b c d : ascii) :
  boxname [a; b; c; d] =
    (if forallb spec_is_alnum [a; b; c; d]
     then inr (string_of_list_ascii [a; b; c; d])
     else inr ("0x" ++ spec_hex 8 (be_value [a; b; c; d]))%string) /\
  boxname (list_ascii_of_string "jp2h") = inr "jp2h"%string /\
  boxname (bytes_of [0; 1; 2; 3]) = inr "0x00010203"%string.
Proof.
  split; [| split; vm_compute; reflexivity].
  unfold boxname. cbn [index_chars nth_error].
  pose proof (index_letters_digits a) as La;
  pose proof (index_letters_digits b) as Lb;
  pose proof (index_letters_digits c) as Lc;
  pose proof (index_letters_digits d) as Ld.
  cbn [forallb]; rewrite <- La, <- Lb, <- Lc, <- Ld.
  cbn [nth_error]; rewrite boxname_hex.
  destruct (index 0 (String a EmptyString) letters_digits); [|reflexivity];
  destruct (index 0 (String b EmptyString) letters_digits); [|reflexivity];
  destruct (index 0 (String c EmptyString) letters_digits); [|reflexivity];
  destruct (index 0 (String d EmptyString) letters_digits); reflexivity.
Qed.

(** ** Lemmas about [parse_header] *)

Lemma scope_open s :
  box_end s = 0 \/ infile_pos s < box_end s ->
  (0 <? box_end s) && (infile_pos s =? box_end s) = false /\
  (0 <? box_end s) && (box_end s <? infile_pos s) = false.
Proof.
  intros [H|H]; [rewrite H; split; reflexivity|].
  split; apply andb_false_intro2; [apply Z.eqb_neq | apply Z.ltb_ge]; lia.
Qed.

(** The state after the 8-byte box header was read. *)
Definition after_lbox_tbox (s : jbox) : jbox :=
  set_hdrsize (set_offset (set_pos s (infile_pos s + 4 + 4)) (offset s + 8)) 8.

(** With a full 8-byte header ahead of the cursor and an ASCII type tag,
    [parse_header] goes on to the length classification. *)
Lemma parse_header_full s lb tag rest :
  0 <= infile_pos s ->
  box_end s = 0 \/ infile_pos s < box_end s ->
  skipn (Z.to_nat (infile_pos s)) (infile_data s) = lb ++ tag ++ rest ->
  List.length lb = 4%nat -> List.length tag = 4%nat ->
  decode_ascii tag = inr tag ->
  parse_header s = read_xlbox (be_value lb) tag (after_lbox_tbox s).
Proof.
  intros Hp Hscope Hs Hlb Htag Hdec.
  destruct (scope_open s Hscope) as [E1 E2].
  unfold parse_header. rewrite bind_get. rewrite E1, E2. cbv iota.
  unfold read_box_header.
  rewrite (bind_inr _ _ _ _ _ (read_prefix s 4 lb (tag ++ rest) ltac:(lia) Hs
             ltac:(rewrite Hlb; reflexivity))).
  rewrite Hlb. cbv iota beta. cbn [Nat.eqb Nat.ltb Nat.leb].
  unfold ordl; rewrite Hlb; cbn [Nat.eqb]. rewrite bind_lift_inr.
  assert (Hs4 : skipn (Z.to_nat (infile_pos (set_pos s (infile_pos s + 4))))
                  (infile_data (set_pos s (infile_pos s + 4))) = tag ++ rest)
    by (exact (skipn_after s 4 lb (tag ++ rest) Hp ltac:(lia) Hs
                 ltac:(rewrite Hlb; reflexivity))).
  rewrite (bind_inr _ _ _ _ _ (read_prefix _ 4 tag rest ltac:(lia) Hs4
             ltac:(rewrite Htag; reflexivity))).
  rewrite Hdec, bind_lift_inr, Htag. cbn [Nat.ltb Nat.leb].
  rewrite bind_modify. reflexivity.
Qed.

Lemma parse_header_open s :
  box_end s = 0 \/ infile_pos s < box_end s ->
  parse_header s = read_box_header s.
Proof.
  intros Hscope. destruct (scope_open s Hscope) as [E1 E2].
  unfold parse_header. rewrite bind_get, E1, E2. reflexivity.
Qed.

Lemma boxname_four id : List.length id = 4%nat -> exists n, boxname id = inr n.
Proof.
  destruct id as [|a [|b [|c [|d [|e id]]]]]; simpl; try discriminate. intros _.
  unfold boxname; cbn [index_chars nth_error].
  destruct (index 0 (String a EmptyString) letters_digits); [|eexists; reflexivity].
  destruct (index 0 (String b EmptyString) letters_digits); [|eexists; reflexivity].
  destruct (index 0 (String c EmptyString) letters_digits); [|eexists; reflexivity].
  destruct (index 0 (String d EmptyString) letters_digits); eexists; reflexivity.
Qed.

Lemma raise_invalid_length_fst {A} id s n :
  boxname id = inr n -> fst ((raise_invalid_length id : M A) s) = inl (InvalidBoxLength n).
Proof. unfold raise_invalid_length, bind, lift. intros ->. reflexivity. Qed.

Lemma decode_ascii_ok tag :
  forallb (fun c => ordb c <? 128) tag = true -> decode_ascii tag = inr tag.
Proof. unfold decode_ascii. intros ->. reflexivity. Qed.

(** The type tag: what [read(4)] returned after the length field. *)
Lemma read_box_header_tag s lb more raw :
  0 <= infile_pos s ->
  skipn (Z.to_nat (infile_pos s)) (infile_data s) = lb ++ more ->
  List.length lb = 4%nat -> firstn 4 more = raw ->
  (forallb (fun c => ordb c <? 128) raw = false ->
   fst (read_box_header s) = inl UnicodeDecodeError) /\
  (forallb (fun c => ordb c <? 128) raw = true -> (List.length raw < 4)%nat ->
   fst (read_box_header s) = inl UnexpectedEOF).
Proof.
  intros Hp Hs Hlb Hraw. unfold read_box_header.
  rewrite (bind_inr _ _ _ _ _ (read_prefix s 4 lb more ltac:(lia) Hs
             ltac:(rewrite Hlb; reflexivity))).
  rewrite Hlb. cbv iota beta. cbn [Nat.eqb Nat.ltb Nat.leb].
  unfold ordl; rewrite Hlb; cbn [Nat.eqb]. rewrite bind_lift_inr.
  assert (Hs4 : skipn (Z.to_nat (infile_pos s + 4)) (infile_data s) = more)
    by exact (skipn_after s 4 lb more Hp ltac:(lia) Hs ltac:(rewrite Hlb; reflexivity)).
  split; [intros Ha | intros Ha Hl];
    unfold bind at 1, read at 1; cbn [infile_pos infile_data set_pos];
    rewrite Hs4; change (Z.to_nat 4) with 4%nat; rewrite Hraw;
    unfold decode_ascii, lift at 1, bind at 1; rewrite Ha; [reflexivity|].
  apply Nat.ltb_lt in Hl. unfold Nat.ltb in Hl. cbn [Nat.leb] in Hl. rewrite Hl.
  reflexivity.
Qed.

(** A successful length classification ends in the state where [boxsize]
    was set. *)
Lemma read_xlbox_plain L id s :
  8 <= L -> read_xlbox L id s = (inr (Sized (L - 8) id), set_boxsize s (L - 8)).
Proof.
  intros HL. unfold read_xlbox.
  replace (L =? 1) with false by (symmetry; apply Z.eqb_neq; lia).
  replace ((0 <? L) && (L <? 8)) with false
    by (symmetry; apply andb_false_intro2, Z.ltb_ge; lia).
  replace (0 <? L) with true by (symmetry; apply Z.ltb_lt; lia).
  reflexivity.
Qed.

Lemma read_xlbox_small L id s n :
  0 < L < 8 -> L <> 1 -> boxname id = inr n ->
  fst (read_xlbox L id s) = inl (InvalidBoxLength n).
Proof.
  intros HL H1 Hn. unfold read_xlbox.
  replace (L =? 1) with false by (symmetry; apply Z.eqb_neq; lia).
  replace ((0 <? L) && (L <? 8)) with true
    by (symmetry; apply andb_true_intro; split; apply Z.ltb_lt; lia).
  apply raise_invalid_length_fst; exact Hn.
Qed.

Lemma read_xlbox_ext_short id s :
  (List.length (skipn (Z.to_nat (infile_pos s)) (infile_data s)) < 8)%nat ->
  fst (read_xlbox 1 id s) = inl UnexpectedEOF.
Proof.
  intros Hl. unfold read_xlbox. cbn [Z.eqb Pos.eqb].
  rewrite (bind_inr _ _ _ _ _ (read_short s 8 ltac:(cbn; lia))), bind_modify.
  apply Nat.ltb_lt in Hl. rewrite Hl. reflexivity.
Qed.

Lemma read_xlbox_ext id s xl rest :
  skipn (Z.to_nat (infile_pos s)) (infile_data s) = xl ++ rest ->
  List.length xl = 8%nat ->
  (forall n, be_value xl < 16 -> boxname id = inr n ->
   fst (read_xlbox 1 id s) = inl (InvalidBoxLength n)) /\
  (16 <= be_value xl -> exists s',
   read_xlbox 1 id s = (inr (Sized (be_value xl - 16) id), s') /\ hdrsize s' = 16).
Proof.
  intros Hs Hl. unfold read_xlbox. cbn [Z.eqb Pos.eqb].
  rewrite (bind_inr _ _ _ _ _ (read_prefix s 8 xl rest ltac:(lia) Hs
             ltac:(rewrite Hl; reflexivity))), bind_modify, Hl.
  cbn [Nat.ltb Nat.leb]. unfold ordq; rewrite Hl; cbn [Nat.eqb].
  rewrite bind_lift_inr. split.
  - intros n Hx Hn. apply Z.ltb_lt in Hx. rewrite Hx.
    apply raise_invalid_length_fst; exact Hn.
  - intros Hx. replace (be_value xl <? 16) with false
      by (symmetry; apply Z.ltb_ge; lia).
    eexists; split; reflexivity.
Qed.

Lemma skipn_after_header s lb tag rest :
  0 <= infile_pos s ->
  skipn (Z.to_nat (infile_pos s)) (infile_data s) = lb ++ tag ++ rest ->
  List.length lb = 4%nat -> List.length tag = 4%nat ->
  skipn (Z.to_nat (infile_pos (after_lbox_tbox s))) (infile_data (after_lbox_tbox s)) = rest.
Proof.
  intros Hp Hs Hlb Htag. cbn [after_lbox_tbox infile_pos infile_data set_pos
    set_hdrsize set_offset].
  replace (infile_pos s + 4 + 4) with (infile_pos s + 8) by lia.
  apply (skipn_after s 8 (lb ++ tag) rest Hp ltac:(lia)).
  - rewrite <- app_assoc; exact Hs.
  - rewrite length_app, Hlb, Htag; reflexivity.
Qed.

(** C3 (amended): for every header decode ([JP2Box.parse_header]) past
    the scope check with a full 4-byte length field [L] and a full 4-byte
    type tag: when the tag's bytes are ASCII (below 128), [0 < L < 8] with
    [L <> 1] fails with [InvalidBoxLength] carrying the rendered tag, and
    [L >= 8] succeeds with body size [L - 8] and header size 8; when a tag
    byte is 128 or more, [.decode('ascii')] fails first with
    [UnicodeDecodeError]. *)
Theorem parse_header_lbox_classes s lb tag rest :
  0 <= infile_pos s ->
  box_end s = 0 \/ infile_pos s < box_end s ->
  skipn (Z.to_nat (infile_pos s)) (infile_data s) = lb ++ tag ++ rest ->
  List.length lb = 4%nat -> List.length tag = 4%nat ->
  (forallb (fun c => ordb c <? 128) tag = true ->
   (0 < be_value lb < 8 -> be_value lb <> 1 ->
    exists n, boxname tag = inr n /\ fst (parse_header s) = inl (InvalidBoxLength n)) /\
   (8 <= be_value lb -> exists s',
    parse_header s = (inr (Sized (be_value lb - 8) tag), s') /\ hdrsize s' = 8)) /\
  (forallb (fun c => ordb c <? 128) tag = false ->
   fst (parse_header s) = inl UnicodeDecodeError).
Proof.
  intros Hp Hscope Hs Hlb Htag. split.
  - intros Ha. rewrite (parse_header_full s lb tag rest Hp Hscope Hs Hlb Htag
                          (decode_ascii_ok tag Ha)).
    split.
    + intros HL H1. destruct (boxname_four tag Htag) as [n Hn].
      exists n; split; [exact Hn|]. apply read_xlbox_small; assumption.
    + intros HL. rewrite read_xlbox_plain by exact HL.
      eexists; split; reflexivity.
  - intros Ha. rewrite parse_header_open by exact Hscope.
    apply (read_box_header_tag s lb (tag ++ rest) tag Hp Hs Hlb); [|exact Ha].
    rewrite firstn_app, <- Htag, Nat.sub_diag, firstn_all. apply app_nil_r.
Qed.

(** C4 (amended): for every header decode past the scope check whose
    length field is [L = 1], with a full 4-byte type tag of ASCII bytes,
    the 8 bytes that follow the tag are the extended length [XL]: fewer
    than 8 of them fail with [UnexpectedEOF], [XL < 16] fails with
    [InvalidBoxLength] carrying the rendered tag, and [XL >= 16] succeeds
    with body size [XL - 16] and header size 16.  With a tag byte of 128 or
    more the decode fails with [UnicodeDecodeError] before [XL] is read. *)
Theorem parse_header_xlbox_classes s lb tag rest :
  0 <= infile_pos s ->
  box_end s = 0 \/ infile_pos s < box_end s ->
  skipn (Z.to_nat (infile_pos s)) (infile_data s) = lb ++ tag ++ rest ->
  List.length lb = 4%nat -> List.length tag = 4%nat -> be_value lb = 1 ->
  (forallb (fun c => ordb c <? 128) tag = true ->
   ((List.length rest < 8)%nat -> fst (parse_header s) = inl UnexpectedEOF) /\
   (forall xl rest', rest = xl ++ rest' -> List.length xl = 8%nat ->
    (be_value xl < 16 ->
     exists n, boxname tag = inr n /\ fst (parse_header s) = inl (InvalidBoxLength n)) /\
    (16 <= be_value xl -> exists s',
     parse_header s = (inr (Sized (be_value xl - 16) tag), s') /\ hdrsize s' = 16))) /\
  (forallb (fun c => ordb c <? 128) tag = false ->
   fst (parse_header s) = inl UnicodeDecodeError).
Proof.
  intros Hp Hscope Hs Hlb Htag H1. split.
  - intros Ha. rewrite (parse_header_full s lb tag rest Hp Hscope Hs Hlb Htag
                          (decode_ascii_ok tag Ha)), H1.
    pose proof (skipn_after_header s lb tag rest Hp Hs Hlb Htag) as Hr.
    split.
    + intros Hl. apply read_xlbox_ext_short. rewrite Hr. exact Hl.
    + intros xl rest' -> Hxl.
      destruct (read_xlbox_ext tag (after_lbox_tbox s) xl rest' Hr Hxl) as [Hsm Hbig].
      split; [|exact Hbig].
      intros Hx. destruct (boxname_four tag Htag) as [n Hn].
      exists n; split; [exact Hn|]. apply Hsm; assumption.
  - intros Ha. rewrite parse_header_open by exact Hscope.
    apply (read_box_header_tag s lb (tag ++ rest) tag Hp Hs Hlb); [|exact Ha].
    rewrite firstn_app, <- Htag, Nat.sub_diag, firstn_all. apply app_nil_r.
Qed.

(** C5: within a bounded scope ([self.end > 0]), [parse_header] first
    compares the cursor with the scope's end, before reading anything: at
    the end it returns the empty result ("no more boxes") with the state
    untouched, past the end it raises [InvalidBoxLength("unknown box")],
    and only below the end does it go on to read a header. *)
Theorem parse_header_scope_boundary s :
  0 < box_end s ->
  (infile_pos s = box_end s -> parse_header s = (inr NoBox, s)) /\
  (box_end s < infile_pos s ->
   parse_header s = (inl (InvalidBoxLength "unknown box"), s)) /\
  (infile_pos s < box_end s -> parse_header s = read_box_header s).
Proof.
  intros Hend. unfold parse_header. rewrite bind_get.
  replace (0 <? box_end s) with true by (symmetry; apply Z.ltb_lt; lia).
  cbn [andb]. split; [|split].
  - intros Heq. rewrite Heq, Z.eqb_refl. reflexivity.
  - intros Hlt. replace (infile_pos s =? box_end s) with false
      by (symmetry; apply Z.eqb_neq; lia).
    replace (box_end s <? infile_pos s) with true
      by (symmetry; apply Z.ltb_lt; lia). reflexivity.
  - intros Hlt. replace (infile_pos s =? box_end s) with false
      by (symmetry; apply Z.eqb_neq; lia).
    replace (box_end s <? infile_pos s) with false
      by (symmetry; apply Z.ltb_ge; lia). reflexivity.
Qed.

(** C6 (amended): for every header decode past the scope check: with no
    byte left in the source it returns the empty result (no error); with
    1 to 3 bytes left it fails with [UnexpectedEOF]; with the 4-byte
    length field read and fewer than 4 bytes left for the type tag it
    fails with [UnexpectedEOF] when those bytes are ASCII and with
    [UnicodeDecodeError] when one of them is 128 or more.  So 6 bytes left
    at a box start fail with [UnexpectedEOF] exactly when the last two are
    ASCII; it never returns a partial header. *)
Theorem parse_header_truncated s :
  0 <= infile_pos s ->
  box_end s = 0 \/ infile_pos s < box_end s ->
  (List.length (skipn (Z.to_nat (infile_pos s)) (infile_data s)) = 0%nat ->
   fst (parse_header s) = inr NoBox) /\
  ((0 < List.length (skipn (Z.to_nat (infile_pos s)) (infile_data s)) < 4)%nat ->
   fst (parse_header s) = inl UnexpectedEOF) /\
  (forall lb tag, skipn (Z.to_nat (infile_pos s)) (infile_data s) = lb ++ tag ->
   List.length lb = 4%nat -> (List.length tag < 4)%nat ->
   fst (parse_header s) =
     if forallb (fun c => ordb c <? 128) tag then inl UnexpectedEOF
     else inl UnicodeDecodeError).
Proof.
  intros Hp Hscope. rewrite parse_header_open by exact Hscope.
  split; [|split].
  - intros H0. unfold read_box_header.
    rewrite (bind_inr _ _ _ _ _ (read_short s 4 ltac:(cbn; lia))), H0.
    reflexivity.
  - intros H03. unfold read_box_header.
    rewrite (bind_inr _ _ _ _ _ (read_short s 4 ltac:(cbn; lia))).
    destruct (List.length (skipn (Z.to_nat (infile_pos s)) (infile_data s)))
      as [|[|[|[|k]]]] eqn:E; try lia; reflexivity.
  - intros lb tag Hs Hlb Htag.
    destruct (read_box_header_tag s lb tag tag Hp Hs Hlb
                (firstn_all2 (n:=4%nat) tag ltac:(lia))) as [Hbad Hok].
    destruct (forallb (fun c => ordb c <? 128) tag) eqn:Ha.
    + apply Hok; [reflexivity | exact Htag].
    + apply Hbad; reflexivity.
Qed.

(** C3 counterexample: length field 2 and a type tag whose first byte is
    0xff; the decode fails with [UnicodeDecodeError], not with
    [InvalidBoxLength]. *)
Lemma parse_header_lbox_classes_cex :
  fst (parse_header (new_jbox None (bytes_of [0; 0; 0; 2; 255; 97; 98; 99]) 0 0))
    = inl UnicodeDecodeError /\
  ~ (exists n, fst (parse_header (new_jbox None (bytes_of [0; 0; 0; 2; 255; 97; 98; 99]) 0 0))
                 = inl (InvalidBoxLength n)).
Proof.
  vm_compute. split; [reflexivity|]. intros [n Hn]. discriminate Hn.
Qed.

(** C3 witness: the 12-byte box ["jp2h"] with a 4-byte body. *)
Lemma parse_header_lbox_classes_witness :
  exists s', parse_header (new_jbox None (bytes_of [0; 0; 0; 12] ++
                 list_ascii_of_string "jp2h" ++ bytes_of [1; 2; 3; 4]) 0 0)
             = (inr (Sized 4 (list_ascii_of_string "jp2h")), s') /\ hdrsize s' = 8.
Proof.
  destruct (parse_header_lbox_classes
              (new_jbox None (bytes_of [0; 0; 0; 12] ++
                 list_ascii_of_string "jp2h" ++ bytes_of [1; 2; 3; 4]) 0 0)
              (bytes_of [0; 0; 0; 12]) (list_ascii_of_string "jp2h")
              (bytes_of [1; 2; 3; 4])
              (Z.le_refl 0) (or_introl eq_refl) eq_refl eq_refl eq_refl)
    as [Hascii _].
  apply (proj2 (Hascii eq_refl)). apply Z.leb_le; vm_compute; reflexivity.
Defined.

(** C4 counterexample: length field 1, a type tag starting with 0xff and
    the extended length 16; the decode fails with [UnicodeDecodeError]
    instead of returning body size 0. *)
Lemma parse_header_xlbox_classes_cex :
  fst (parse_header (new_jbox None (bytes_of [0; 0; 0; 1; 255; 97; 98; 99;
                                              0; 0; 0; 0; 0; 0; 0; 16]) 0 0))
    = inl UnicodeDecodeError.
Proof. vm_compute. reflexivity. Qed.

(** C4 witness: [XL = 15] fails with [InvalidBoxLength("jp2h")] and
    [XL = 16] gives body size 0 and header size 16. *)
Lemma parse_header_xlbox_classes_witness :
  fst (parse_header (new_jbox None (bytes_of [0; 0; 0; 1] ++ list_ascii_of_string "jp2h"
                      ++ bytes_of [0; 0; 0; 0; 0; 0; 0; 15]) 0 0))
    = inl (InvalidBoxLength "jp2h") /\
  exists s', parse_header (new_jbox None (bytes_of [0; 0; 0; 1] ++ list_ascii_of_string "jp2h"
                      ++ bytes_of [0; 0; 0; 0; 0; 0; 0; 16]) 0 0)
             = (inr (Sized 0 (list_ascii_of_string "jp2h")), s') /\ hdrsize s' = 16.
Proof.
  split.
  - destruct (parse_header_xlbox_classes
                (new_jbox None (bytes_of [0; 0; 0; 1] ++ list_ascii_of_string "jp2h"
                      ++ bytes_of [0; 0; 0; 0; 0; 0; 0; 15]) 0 0)
                (bytes_of [0; 0; 0; 1]) (list_ascii_of_string "jp2h")
                (bytes_of [0; 0; 0; 0; 0; 0; 0; 15])
                (Z.le_refl 0) (or_introl eq_refl) eq_refl eq_refl eq_refl eq_refl)
      as [Hascii _].
    destruct (proj2 (Hascii eq_refl) (bytes_of [0; 0; 0; 0; 0; 0; 0; 15]) []
                (eq_sym (app_nil_r _)) eq_refl) as [Hsmall _].
    destruct (Hsmall ltac:(vm_compute; reflexivity)) as [n [Hn Hr]].
    rewrite Hr. vm_compute in Hn. injection Hn as <-. reflexivity.
  - destruct (parse_header_xlbox_classes
                (new_jbox None (bytes_of [0; 0; 0; 1] ++ list_ascii_of_string "jp2h"
                      ++ bytes_of [0; 0; 0; 0; 0; 0; 0; 16]) 0 0)
                (bytes_of [0; 0; 0; 1]) (list_ascii_of_string "jp2h")
                (bytes_of [0; 0; 0; 0; 0; 0; 0; 16])
                (Z.le_refl 0) (or_introl eq_refl) eq_refl eq_refl eq_refl eq_refl)
      as [Hascii _].
    destruct (proj2 (Hascii eq_refl) (bytes_of [0; 0; 0; 0; 0; 0; 0; 16]) []
                (eq_sym (app_nil_r _)) eq_refl) as [_ Hbig].
    apply Hbig. apply Z.leb_le; vm_compute; reflexivity.
Defined.

(** C5 witness: a walker over a 10-byte scope whose cursor is at 10. *)
Lemma parse_header_scope_boundary_witness :
  parse_header (mkJbox (bytes_of [0; 0; 0; 8; 97; 98; 99; 100; 0; 0; 0; 0])
                       10 0 10 0 0 0 0 [])
  = (inr NoBox, mkJbox (bytes_of [0; 0; 0; 8; 97; 98; 99; 100; 0; 0; 0; 0])
                       10 0 10 0 0 0 0 []).
Proof.
  apply (proj1 (parse_header_scope_boundary
                  (mkJbox (bytes_of [0; 0; 0; 8; 97; 98; 99; 100; 0; 0; 0; 0])
                          10 0 10 0 0 0 0 []) ltac:(simpl; lia))).
  reflexivity.
Defined.

(** C6 counterexample: 6 bytes left, the last two 0xff: the decode fails
    with [UnicodeDecodeError], not [UnexpectedEOF]. *)
Lemma parse_header_truncated_cex :
  fst (parse_header (new_jbox None (bytes_of [0; 0; 0; 8; 255; 255]) 0 0))
    = inl UnicodeDecodeError.
Proof. vm_compute. reflexivity. Qed.

(** C6 witness: 6 bytes left, the last two ASCII: [UnexpectedEOF]. *)
Lemma parse_header_truncated_witness :
  fst (parse_header (new_jbox None (bytes_of [0; 0; 0; 8; 106; 112]) 0 0))
    = inl UnexpectedEOF.
Proof.
  destruct (parse_header_truncated
              (new_jbox None (bytes_of [0; 0; 0; 8; 106; 112]) 0 0)
              (Z.le_refl 0) (or_introl eq_refl)) as [_ [_ Htag]].
  rewrite (Htag (bytes_of [0; 0; 0; 8]) (bytes_of [106; 112]) eq_refl eq_refl
             ltac:(simpl; lia)).
  reflexivity.
Defined.

(** ** What a successful [parse_header] leaves behind *)

Lemma read_pos n s c s' :
  read n s = (inr c, s') ->
  s' = set_pos s (infile_pos s + Z.of_nat (List.length c)) /\
  (List.length c <= Z.to_nat n)%nat.
Proof.
  unfold read. intros H. injection H as <- <-. split; [reflexivity|].
  apply firstn_le_length.
Qed.

Ltac run_header H :=
  repeat match type of H with
  | bind (read ?n) _ ?st = _ =>
      let c := fresh "c" in let st' := fresh "st" in let E := fresh "E" in
      destruct (read n st) as [[?e|c] st'] eqn:E;
      [unfold read in E; discriminate E
      |rewrite (bind_inr _ _ _ _ _ E) in H; apply read_pos in E as [-> ?]]
  | bind (modify _) _ _ = _ => rewrite bind_modify in H
  | bind (lift (inr _)) _ _ = _ => rewrite bind_lift_inr in H
  | bind (lift (inl _)) _ _ = _ => discriminate H
  | bind (ret _) _ _ = _ => rewrite bind_ret in H
  | bind (lift (ordl ?c)) _ _ = _ => unfold ordl in H
  | bind (lift (ordq ?c)) _ _ = _ => unfold ordq in H
  | bind (lift (decode_ascii ?c)) _ _ = _ => unfold decode_ascii in H
  | bind (lift (if ?b then _ else _)) _ _ = _ => destruct b eqn:?
  | (if ?b then _ else _) _ = _ => destruct b eqn:?
  | raise _ _ = _ => discriminate H
  | raise_invalid_length _ _ = _ =>
      unfold raise_invalid_length, bind, lift in H; destruct (boxname _) in H;
      discriminate H
  | ret _ _ = _ => injection H as <- <-
  | read_xlbox _ _ _ = _ => unfold read_xlbox in H; cbv zeta in H
  | (let _ := _ in _) = _ => cbv zeta in H
  end.

(** A decoded header leaves the cursor right after the header (at
    [hdrsize] bytes past where it started) and touches neither the
    source, the scope, [bodysize], [target] nor the printed boxes. *)
Lemma parse_header_box s hd s1 :
  parse_header s = (inr hd, s1) -> hd <> NoBox ->
  infile_pos s1 = infile_pos s + hdrsize s1 /\
  infile_data s1 = infile_data s /\ box_end s1 = box_end s /\
  bodysize s1 = bodysize s /\ target s1 = target s /\ printed s1 = printed s /\
  (forall id, hd = Sentinel id -> hdrsize s1 = 8).
Proof.
  intros H Hhd. unfold parse_header in H. rewrite bind_get in H.
  destruct ((0 <? box_end s) && (infile_pos s =? box_end s)).
  { injection H as <- <-. congruence. }
  destruct ((0 <? box_end s) && (box_end s <? infile_pos s)); [discriminate H|].
  unfold read_box_header in H.
  run_header H.

  all: try congruence.
  all: cbn [infile_pos infile_data box_end bodysize target printed hdrsize
            set_pos set_offset set_hdrsize set_boxsize].
  all: repeat match goal with
    | E : (_ =? _)%nat = true |- _ => apply Nat.eqb_eq in E
    | E : (_ =? _)%nat = false |- _ => apply Nat.eqb_neq in E
    | E : (_ <? _)%nat = true |- _ => apply Nat.ltb_lt in E
    | E : (_ <? _)%nat = false |- _ => apply Nat.ltb_ge in E
    | E : (_ <=? _)%nat = true |- _ => apply Nat.leb_le in E
    | E : (_ <=? _)%nat = false |- _ => apply Nat.leb_gt in E
    end.
  all: change (Z.to_nat 4) with 4%nat in *; change (Z.to_nat 8) with 8%nat in *.
  all: repeat split; try reflexivity; try lia; intros ? Hid; discriminate Hid.
Qed.

Lemma bind_tell {B} (k : Z -> M B) s : bind tell k s = k (infile_pos s) s.
Proof. reflexivity. Qed.

Lemma bind_call_hook {B} (h : hook) id d s (k : unit -> M B) p :
  h s id d = (None, p) -> bind (call_hook h id d) k s = k tt (set_pos s p).
Proof. unfold bind, call_hook. intros ->. reflexivity. Qed.

Lemma parse_S fuel h s :
  parse (S fuel) h s = bind (parse_step h) (fun more => if more then parse fuel h else ret true) s.
Proof. reflexivity. Qed.

(** C1: after a box with a finite length ([L <> 0]) has been decoded and
    its hook has returned, whatever the hook read or where it left the
    shared cursor ([p]), the loop iteration seeks the source to the box's
    computed end: the position right after its header plus its declared
    body size, which is also [self.target]; the next iteration decodes the
    next sibling header from there. *)
Theorem parse_step_repositions (h : hook) s s1 len id p :
  parse_header s = (inr (Sized len id), s1) ->
  h (set_printed (set_target (set_bodysize s1 len) (infile_pos s1 + len))
                 (printed s1 ++ [(offset s1 - hdrsize s1, id)]))
    id (Decimal len) = (None, p) ->
  exists s3, parse_step h s = (inr true, s3) /\
    infile_pos s3 = infile_pos s + hdrsize s1 + len /\
    target s3 = infile_pos s3 /\
    forall fuel, parse (S fuel) h s = parse fuel h s3.
Proof.
  intros Hhd Hh.
  destruct (parse_header_box s _ s1 Hhd ltac:(discriminate)) as [Hpos _].
  assert (Hstep : parse_step h s =
    (inr true,
     set_offset (set_pos (set_pos (set_printed (set_target (set_bodysize s1 len)
        (infile_pos s1 + len)) (printed s1 ++ [(offset s1 - hdrsize s1, id)])) p)
        (infile_pos s1 + len)) (offset s1 + len))).
  { unfold parse_step. rewrite (bind_inr _ _ _ _ _ Hhd).
    rewrite bind_modify, bind_tell, bind_modify. unfold new_box.
    rewrite bind_modify. erewrite bind_call_hook by exact Hh.
    rewrite bind_get. unfold seek. rewrite bind_modify, bind_modify.
    reflexivity. }
  eexists; split; [exact Hstep|]. split; [cbn; lia|split; [reflexivity|]].
  intros fuel. rewrite parse_S. rewrite (bind_inr _ _ _ _ _ Hstep). reflexivity.
Qed.

(** C1 witness: a 12-byte box ["jp2h"] followed by more bytes, and a hook
    that seeks 100 bytes further than it was given: the next iteration
    still starts at offset 12. *)
Lemma parse_step_repositions_witness :
  exists s3,
    parse_step (fun ctx _ _ => (None, infile_pos ctx + 100))
      (new_jbox None (bytes_of [0; 0; 0; 12] ++ list_ascii_of_string "jp2h" ++
                      bytes_of [1; 2; 3; 4; 0; 0; 0; 8] ++ list_ascii_of_string "free") 0 0)
    = (inr true, s3) /\ infile_pos s3 = 12.
Proof.
  destruct (parse_step_repositions (fun ctx _ _ => (None, infile_pos ctx + 100))
      (new_jbox None (bytes_of [0; 0; 0; 12] ++ list_ascii_of_string "jp2h" ++
                      bytes_of [1; 2; 3; 4; 0; 0; 0; 8] ++ list_ascii_of_string "free") 0 0)
      (snd (parse_header
        (new_jbox None (bytes_of [0; 0; 0; 12] ++ list_ascii_of_string "jp2h" ++
                        bytes_of [1; 2; 3; 4; 0; 0; 0; 8] ++ list_ascii_of_string "free") 0 0)))
      4 (list_ascii_of_string "jp2h")
      (8 + 100) ltac:(vm_compute; reflexivity) ltac:(vm_compute; reflexivity))
    as [s3 [Hstep [Hpos _]]].
  exists s3. split; [exact Hstep|]. rewrite Hpos. vm_compute. reflexivity.
Defined.

Lemma parse_step_sentinel (h : hook) s s1 id p :
  parse_header s = (inr (Sentinel id), s1) ->
  h (set_printed s1 (printed s1 ++ [(offset s1 - hdrsize s1, id)])) id AllUpToEOF = (None, p) ->
  parse_step h s =
    (inr true, set_pos (set_printed s1 (printed s1 ++ [(offset s1 - hdrsize s1, id)])) p).
Proof.
  intros Hhd Hh. unfold parse_step. rewrite (bind_inr _ _ _ _ _ Hhd).
  unfold new_box. rewrite bind_modify. erewrite bind_call_hook by exact Hh.
  reflexivity.
Qed.

(** Where nothing is left to decode, the next iteration returns. *)
Lemma parse_step_stops h s :
  (0 < box_end s /\ infile_pos s = box_end s) \/
  (box_end s = 0 /\ skipn (Z.to_nat (infile_pos s)) (infile_data s) = []) ->
  exists s', parse_step h s = (inr false, s') /\ printed s' = printed s.
Proof.
  intros Hend. unfold parse_step, parse_header.
  rewrite bind_assoc, bind_get.
  destruct Hend as [[H0 Heq] | [H0 Hnil]].
  - replace ((0 <? box_end s) && (infile_pos s =? box_end s)) with true
      by (symmetry; apply andb_true_intro; split; [apply Z.ltb_lt | apply Z.eqb_eq]; lia).
    eexists; split; reflexivity.
  - rewrite H0. cbn [Z.ltb Z.compare andb]. unfold read_box_header.
    rewrite bind_assoc.
    rewrite (bind_inr _ _ _ _ _ (read_short s 4 ltac:(rewrite Hnil; cbn; lia))).
    rewrite Hnil. eexists; split; reflexivity.
Qed.

(** C2 (amended): when [JP2Box.parse] decodes a box with [L = 0], it
    calls the hook with ["all up to EOF"] and then goes on with its loop
    instead of returning: the next iteration decodes a header wherever the
    hook left the shared cursor.  The walk of the scope ends right after
    the sentinel box, with nothing decoded after it, when the hook left the
    cursor at the end of a bounded scope or with no byte left in an
    unbounded one. *)
Theorem parse_sentinel_continues (h : hook) s s1 id p fuel :
  parse_header s = (inr (Sentinel id), s1) ->
  h (set_printed s1 (printed s1 ++ [(offset s1 - hdrsize s1, id)])) id AllUpToEOF = (None, p) ->
  parse (S fuel) h s =
    parse fuel h (set_pos (set_printed s1 (printed s1 ++ [(offset s1 - hdrsize s1, id)])) p) /\
  ((0 < box_end s /\ p = box_end s) \/
   (box_end s = 0 /\ skipn (Z.to_nat p) (infile_data s) = []) ->
   fst (parse (S (S fuel)) h s) = inr true /\
   printed (snd (parse (S (S fuel)) h s)) = printed s ++ [(offset s1 - hdrsize s1, id)]).
Proof.
  intros Hhd Hh.
  destruct (parse_header_box s _ s1 Hhd ltac:(discriminate))
    as [_ [Hdata [Hend [_ [_ [Hpr _]]]]]].
  pose proof (parse_step_sentinel h s s1 id p Hhd Hh) as Hstep.
  assert (Hcont : forall n, parse (S n) h s =
    parse n h (set_pos (set_printed s1 (printed s1 ++ [(offset s1 - hdrsize s1, id)])) p)).
  { intros n. rewrite parse_S, (bind_inr _ _ _ _ _ Hstep). reflexivity. }
  split; [apply Hcont|].
  intros Hstop. rewrite Hcont, parse_S.
  destruct (parse_step_stops h
    (set_pos (set_printed s1 (printed s1 ++ [(offset s1 - hdrsize s1, id)])) p))
    as [s' [Hs' Hpr']].
  { cbn [box_end infile_pos infile_data set_pos set_printed].
    rewrite Hend, Hdata. destruct Hstop as [[? ?]|[? ?]]; [left|right]; auto. }
  rewrite (bind_inr _ _ _ _ _ Hs'). split; [reflexivity|].
  cbn [snd ret]. rewrite Hpr'. cbn. rewrite Hpr. reflexivity.
Qed.

(** C2 counterexample: a sentinel box ["jp2c"] followed by 8 more bytes
    and a hook that reads nothing: the walk decodes the 8 bytes as a
    sibling box ["abcd"] after the sentinel box. *)
Lemma parse_sentinel_continues_cex :
  printed (snd (parse 3 (fun ctx _ _ => (None, infile_pos ctx))
    (new_jbox None (bytes_of [0; 0; 0; 0] ++ list_ascii_of_string "jp2c" ++
                    bytes_of [0; 0; 0; 8] ++ list_ascii_of_string "abcd") 0 0)))
  = [(0, list_ascii_of_string "jp2c"); (8, list_ascii_of_string "abcd")].
Proof. vm_compute. reflexivity. Qed.

(** C2 witness: the 100-byte scope of the spec, a single sentinel box and
    a hook that reads the whole scope: the walk ends after that box. *)
Lemma parse_sentinel_continues_witness :
  fst (parse 2 (fun ctx _ _ => (None, 100))
         (new_jbox None (bytes_of [0; 0; 0; 0] ++ list_ascii_of_string "jp2c" ++
                         repeat "000"%char 92) 0 0)) = inr true /\
  printed (snd (parse 2 (fun ctx _ _ => (None, 100))
         (new_jbox None (bytes_of [0; 0; 0; 0] ++ list_ascii_of_string "jp2c" ++
                         repeat "000"%char 92) 0 0)))
  = [(0, list_ascii_of_string "jp2c")].
Proof.
  apply (proj2 (parse_sentinel_continues (fun ctx _ _ => (None, 100))
    (new_jbox None (bytes_of [0; 0; 0; 0] ++ list_ascii_of_string "jp2c" ++
                    repeat "000"%char 92) 0 0)
    (snd (parse_header (new_jbox None (bytes_of [0; 0; 0; 0] ++ list_ascii_of_string "jp2c" ++
                    repeat "000"%char 92) 0 0)))
    (list_ascii_of_string "jp2c") 100 0
    ltac:(vm_compute; reflexivity) eq_refl)).
  right. split; [reflexivity | vm_compute; reflexivity].
Defined.

(** C7 (amended): [JP2Box.readbody] never raises.  With a positive
    declared [bodysize] it returns the next [min(bodysize, available)]
    bytes of the source, so a short result when fewer bytes are available
    (no [UnexpectedEOF], no padding); with [bodysize] 0 it returns every
    byte from the cursor to the end of the source, the empty string at the
    end. *)
Theorem readbody_returns_available s :
  (0 < bodysize s -> exists s',
     readbody s = (inr (firstn (Z.to_nat (bodysize s))
                     (skipn (Z.to_nat (infile_pos s)) (infile_data s))), s') /\
     List.length (firstn (Z.to_nat (bodysize s))
                    (skipn (Z.to_nat (infile_pos s)) (infile_data s)))
     = Nat.min (Z.to_nat (bodysize s))
               (List.length (skipn (Z.to_nat (infile_pos s)) (infile_data s)))) /\
  (bodysize s <= 0 -> exists s',
     readbody s = (inr (skipn (Z.to_nat (infile_pos s)) (infile_data s)), s')).
Proof.
  unfold readbody. rewrite bind_get. split.
  - intros Hb. apply Z.ltb_lt in Hb. rewrite Hb.
    eexists; split; [reflexivity | apply length_firstn].
  - intros Hb. replace (0 <? bodysize s) with false by (symmetry; apply Z.ltb_ge; lia).
    eexists; reflexivity.
Qed.

(** C7 counterexample: a declared body of 10 bytes with 3 left: [readbody]
    returns the 3 bytes instead of raising [UnexpectedEOF]. *)
Lemma readbody_returns_available_cex :
  fst (readbody (set_bodysize (new_jbox None (bytes_of [1; 2; 3]) 0 0) 10))
    = inr (bytes_of [1; 2; 3]).
Proof. vm_compute. reflexivity. Qed.

(** C7 witness: a declared body of 10 bytes with 3 left. *)
Lemma readbody_returns_available_witness :
  exists s', readbody (set_bodysize (new_jbox None (bytes_of [1; 2; 3]) 0 0) 10)
             = (inr (bytes_of [1; 2; 3]), s').
Proof.
  destruct (proj1 (readbody_returns_available
                     (set_bodysize (new_jbox None (bytes_of [1; 2; 3]) 0 0) 10))
              eq_refl) as [s' [H _]].
  exists s'. exact H.
Defined.

(** C8 (amended): for a box decoded with [L = 0], when the walker context
    still has [bodysize] 0 (no box with a positive body was handled by it
    before), [readbody] called by the hook returns every byte from right
    after the 8-byte header to the end of the whole byte source, also when
    the scope is a container body that ends earlier. *)
Theorem sentinel_readbody_to_eof s s1 id :
  parse_header s = (inr (Sentinel id), s1) -> bodysize s <= 0 ->
  fst (readbody (snd (new_box id s1))) =
    inr (skipn (Z.to_nat (infile_pos s + 8)) (infile_data s)).
Proof.
  intros Hhd Hb.
  destruct (parse_header_box s _ s1 Hhd ltac:(discriminate))
    as [Hpos [Hdata [_ [Hbs [_ [_ H8]]]]]].
  rewrite (H8 id eq_refl) in Hpos.
  unfold readbody. cbn [new_box modify snd]. rewrite bind_get.
  cbn [bodysize set_printed]. rewrite Hbs.
  replace (0 <? bodysize s) with false by (symmetry; apply Z.ltb_ge; lia).
  cbn [read_all fst infile_pos infile_data set_printed]. rewrite Hpos, Hdata.
  reflexivity.
Qed.

(** C8 counterexamples.  In a container body spanning bytes 0-12 whose
    only box is a sentinel, [readbody] returns the 4 bytes of the scope
    and the 8 bytes of the source after it.  At top level, a sentinel
    box after a box with a 1-byte body gets 1 byte from [readbody], not
    the 3 bytes left: the context still holds the earlier box's
    [bodysize]. *)
Lemma sentinel_readbody_to_eof_cex :
  fst (readbody (snd (new_box (list_ascii_of_string "jp2c")
        (snd (parse_header
          (mkJbox (bytes_of [0; 0; 0; 0] ++ list_ascii_of_string "jp2c" ++
                   bytes_of [9; 9; 9; 9; 0; 0; 0; 8] ++ list_ascii_of_string "free")
                  0 0 12 0 0 0 0 []))))))
    = inr (bytes_of [9; 9; 9; 9; 0; 0; 0; 8] ++ list_ascii_of_string "free") /\
  fst (parse_header
         (snd (parse_step (fun ctx _ _ => (None, infile_pos ctx))
           (new_jbox None (bytes_of [0; 0; 0; 9] ++ list_ascii_of_string "jp2c" ++
              bytes_of [5; 0; 0; 0; 0] ++ list_ascii_of_string "jp2c" ++
              bytes_of [1; 2; 3]) 0 0))))
    = inr (Sentinel (list_ascii_of_string "jp2c")) /\
  fst (readbody (snd (new_box (list_ascii_of_string "jp2c")
        (snd (parse_header
         (snd (parse_step (fun ctx _ _ => (None, infile_pos ctx))
           (new_jbox None (bytes_of [0; 0; 0; 9] ++ list_ascii_of_string "jp2c" ++
              bytes_of [5; 0; 0; 0; 0] ++ list_ascii_of_string "jp2c" ++
              bytes_of [1; 2; 3]) 0 0))))))))
    = inr (bytes_of [1]).
Proof. vm_compute. repeat split. Qed.

(** C8 witness: the spec's 100-byte source with a single sentinel box:
    [readbody] returns its 92 body bytes. *)
Lemma sentinel_readbody_to_eof_witness :
  fst (readbody (snd (new_box (list_ascii_of_string "jp2c")
        (snd (parse_header (new_jbox None (bytes_of [0; 0; 0; 0] ++
           list_ascii_of_string "jp2c" ++ repeat "007"%char 92) 0 0))))))
    = inr (repeat "007"%char 92).
Proof.
  rewrite (sentinel_readbody_to_eof
             (new_jbox None (bytes_of [0; 0; 0; 0] ++
                list_ascii_of_string "jp2c" ++ repeat "007"%char 92) 0 0)
             (snd (parse_header (new_jbox None (bytes_of [0; 0; 0; 0] ++
                list_ascii_of_string "jp2c" ++ repeat "007"%char 92) 0 0)))
             (list_ascii_of_string "jp2c")
             ltac:(vm_compute; reflexivity) (Z.le_refl 0)).
  vm_compute. reflexivity.
Defined.

(** C10 (code bug): [parse_string_header] applies [ordl] to the whole
    buffer, and [struct.unpack('>L', buf)] accepts exactly 4 bytes, so
    every buffer of 8 bytes or more fails with [struct.error] before its
    header is looked at; [parse_header] reads the 4-byte field alone and
    decodes the same 8 bytes [00 00 00 08 'j' 'p' '2' 'h'] as a box
    ["jp2h"] with body size 0. *)
Theorem parse_string_header_struct_error :
  (forall buf, (8 <= List.length buf)%nat -> parse_string_header buf = inl StructError) /\
  parse_string_header (bytes_of [0; 0; 0; 8] ++ list_ascii_of_string "jp2h")
    = inl StructError /\
  fst (parse_header (new_jbox None (bytes_of [0; 0; 0; 8] ++ list_ascii_of_string "jp2h") 0 0))
    = inr (Sized 0 (list_ascii_of_string "jp2h")).
Proof.
  split; [|split; vm_compute; reflexivity].
  intros buf Hl. unfold parse_string_header, ordl.
  replace (Nat.eqb (List.length buf) 4) with false
    by (symmetry; apply Nat.eqb_neq; lia).
  reflexivity.
Qed.

(** ** Properties of [Buffer] *)

Lemma py_slice_in (s : list ascii) i j :
  0 <= i <= Z.of_nat (List.length s) -> i <= j <= Z.of_nat (List.length s) ->
  py_slice s i j = firstn (Z.to_nat (j - i)) (skipn (Z.to_nat i) s).
Proof.
  intros Hi Hj. unfold py_slice, py_index.
  replace (i <? 0) with false by (symmetry; apply Z.ltb_ge; lia).
  replace (j <? 0) with false by (symmetry; apply Z.ltb_ge; lia).
  rewrite !Z.min_l by lia. reflexivity.
Qed.

Lemma firstn_min_length {A} (n : nat) (l : list A) :
  firstn (Nat.min n (List.length l)) l = firstn n l.
Proof.
  revert l; induction n as [|n IH]; intros [|x l]; simpl; try reflexivity.
  now rewrite IH.
Qed.

Lemma buffer_read_chunk (n : Z) (b : Buffer) :
  0 <= buf_offset b -> 0 <= n \/ n = -1 ->
  let chunk := if n =? -1 then skipn (Z.to_nat (buf_offset b)) (buf_buffer b)
               else firstn (Z.to_nat n) (skipn (Z.to_nat (buf_offset b)) (buf_buffer b)) in
  buffer_read n b = (chunk, mkBuffer (buf_offset b + Z.of_nat (List.length chunk)) (buf_buffer b)).
Proof.
  intros Hoff Hn chunk. subst chunk. destruct b as [off d]; cbn [buf_offset buf_buffer] in *.
  unfold buffer_read, eof_reached, rest_len; cbn [buf_offset buf_buffer].
  destruct (Z.of_nat (List.length d) <=? off) eqn:Heof.
  - apply Z.leb_le in Heof.
    rewrite skipn_all2 by lia. destruct (n =? -1); rewrite ?firstn_nil; cbn;
      rewrite Z.add_0_r; reflexivity.
  - apply Z.leb_gt in Heof.
    assert (Hlen : List.length (skipn (Z.to_nat off) d) = (List.length d - Z.to_nat off)%nat)
      by apply length_skipn.
    destruct (n =? -1) eqn:Hm1; cbn [orb].
    + rewrite py_slice_in by lia.
      replace (off + (Z.of_nat (List.length d) - off) - off)
        with (Z.of_nat (List.length d) - off) by lia.
      rewrite firstn_all2 by lia. rewrite Hlen.
      f_equal; f_equal; lia.
    + apply Z.eqb_neq in Hm1. destruct Hn as [Hn|]; [|lia].
      destruct (Z.of_nat (List.length d) - off <? n) eqn:Hlt.
      * apply Z.ltb_lt in Hlt. rewrite py_slice_in by lia.
        replace (off + (Z.of_nat (List.length d) - off) - off)
          with (Z.of_nat (List.length d) - off) by lia.
        rewrite firstn_all2 by lia. rewrite (firstn_all2 (n:=Z.to_nat n)) by lia.
        rewrite Hlen. f_equal; f_equal; lia.
      * apply Z.ltb_ge in Hlt. rewrite py_slice_in by lia.
        replace (off + n - off) with n by lia.
        rewrite length_firstn, Hlen. f_equal; f_equal; lia.
Qed.

Lemma firstn_add_split {A} (a k : nat) (l : list A) :
  firstn (a + k) l = firstn a l ++ firstn k (skipn (List.length (firstn a l)) l).
Proof.
  revert l; induction a as [|a IH]; intros [|x l]; cbn; rewrite ?firstn_nil; try reflexivity.
  now rewrite IH.
Qed.

(** [Buffer] stands in for a file: on a buffer and a box reader that share
    the bytes and the cursor, [Buffer.read(n)] for [n >= 0] returns what
    [infile.read(n)] returns and [Buffer.read()] what [infile.read()]
    returns, and both leave the cursor at the same place. *)
Theorem buffer_read_as_file (n : Z) (b : Buffer) (s : jbox) :
  0 <= buf_offset b -> 0 <= n \/ n = -1 ->
  infile_data s = buf_buffer b -> infile_pos s = buf_offset b ->
  let r := (if n =? -1 then read_all else read n) s in
  fst r = inr (fst (buffer_read n b)) /\
  infile_pos (snd r) = buffer_tell (snd (buffer_read n b)).
Proof.
  intros Hoff Hn Hd Hp r. subst r. rewrite (buffer_read_chunk n b Hoff Hn).
  unfold buffer_tell; destruct (n =? -1); unfold read_all, read; cbn;
    rewrite Hd, Hp; split; reflexivity.
Qed.

(** Two successive reads of [Buffer] return, joined, what one read of the
    summed length returns, and leave the cursor at the same place. *)
Theorem buffer_read_concat (n m : Z) (b : Buffer) :
  0 <= buf_offset b -> 0 <= n -> 0 <= m ->
  let (r1, b1) := buffer_read n b in
  let (r2, b2) := buffer_read m b1 in
  buffer_read (n + m) b = (r1 ++ r2, b2).
Proof.
  intros Hoff Hn Hm.
  rewrite (buffer_read_chunk n b Hoff (or_introl Hn)).
  replace (n =? -1) with false by (symmetry; apply Z.eqb_neq; lia).
  set (c1 := firstn (Z.to_nat n) (skipn (Z.to_nat (buf_offset b)) (buf_buffer b))).
  assert (Hoff1 : 0 <= buf_offset (mkBuffer (buf_offset b + Z.of_nat (List.length c1)) (buf_buffer b)))
    by (cbn [buf_offset]; lia).
  rewrite (buffer_read_chunk m _ Hoff1 (or_introl Hm)).
  assert (Hnm : 0 <= n + m) by lia.
  rewrite (buffer_read_chunk (n + m) b Hoff (or_introl Hnm)).
  replace (m =? -1) with false by (symmetry; apply Z.eqb_neq; lia).
  replace (n + m =? -1) with false by (symmetry; apply Z.eqb_neq; lia).
  cbn [buf_offset buf_buffer].
  set (rest := skipn (Z.to_nat (buf_offset b)) (buf_buffer b)).
  assert (Hs : skipn (Z.to_nat (buf_offset b + Z.of_nat (List.length c1))) (buf_buffer b)
               = skipn (List.length c1) rest).
  { subst rest. rewrite skipn_skipn. f_equal. lia. }
  rewrite Hs.
  assert (Hc : firstn (Z.to_nat (n + m)) rest
               = c1 ++ firstn (Z.to_nat m) (skipn (List.length c1) rest)).
  { subst c1. fold rest. rewrite Z2Nat.inj_add by lia. apply firstn_add_split. }
  rewrite Hc, length_app. f_equal. f_equal. lia.
Qed.

(** ** Properties of the byte packers *)

Lemma be_value_app (l : list ascii) (c : ascii) :
  be_value (l ++ [c]) = be_value l * 256 + ordb c.
Proof. unfold be_value. rewrite fold_left_app. reflexivity. Qed.

Lemma be_value_range (l : list ascii) :
  0 <= be_value l < 256 ^ Z.of_nat (List.length l).
Proof.
  induction l as [|c l IH] using rev_ind; [cbn; lia|].
  rewrite be_value_app, length_app, Nat2Z.inj_add, Z.pow_add_r by lia.
  pose proof (ordb_range c). cbn [List.length Z.of_nat]. lia.
Qed.

Lemma ordb_ascii_of_N (z : Z) : 0 <= z < 256 -> ordb (ascii_of_N (Z.to_N z)) = z.
Proof.
  intros Hz. unfold ordb. rewrite N_ascii_embedding by lia. lia.
Qed.

Lemma be_bytes_length k i : List.length (be_bytes k i) = k.
Proof.
  revert i; induction k as [|k IH]; intros i; [reflexivity|].
  cbn [be_bytes]. rewrite length_app, IH. cbn. lia.
Qed.

Lemma be_value_be_bytes k i :
  0 <= i < 256 ^ Z.of_nat k -> be_value (be_bytes k i) = i.
Proof.
  revert i; induction k as [|k IH]; intros i Hi.
  - cbn in *. lia.
  - cbn [be_bytes]. rewrite be_value_app.
    rewrite Nat2Z.inj_succ, Z.pow_succ_r in Hi by lia.
    rewrite IH by (split; [apply Z.div_pos | apply Z.div_lt_upper_bound]; lia).
    rewrite ordb_ascii_of_N by (apply Z.mod_pos_bound; lia).
    pose proof (Z.div_mod i 256). lia.
Qed.

Lemma be_bytes_be_value (l : list ascii) :
  be_bytes (List.length l) (be_value l) = l.
Proof.
  induction l as [|c l IH] using rev_ind; [reflexivity|].
  rewrite length_app, Nat.add_1_r. cbn [be_bytes]. rewrite be_value_app.
  pose proof (ordb_range c).
  replace ((be_value l * 256 + ordb c) / 256) with (be_value l)
    by (apply Z.div_unique with (ordb c); lia).
  replace ((be_value l * 256 + ordb c) mod 256) with (ordb c)
    by (apply Z.mod_unique with (be_value l); lia).
  rewrite IH. unfold ordb. rewrite N2Z.id, ascii_N_embedding. reflexivity.
Qed.

Lemma pack_unpack k i b :
  (0 <= i < 256 ^ Z.of_nat k -> be_bytes k i = b ->
   List.length b = k /\ be_value b = i) /\
  (List.length b = k -> be_value b = i ->
   0 <= i < 256 ^ Z.of_nat k /\ be_bytes k i = b).
Proof.
  split.
  - intros Hi <-. split; [apply be_bytes_length | apply be_value_be_bytes; exact Hi].
  - intros Hl <-. split; [rewrite <- Hl; apply be_value_range|].
    rewrite <- Hl. apply be_bytes_be_value.
Qed.

(** [chrl] and [ordl] are inverse to each other, and so are [chrq] and
    [ordq]: packing [i] gives [b] exactly when unpacking [b] gives [i].
    Packing raises [struct.error] exactly for an integer outside
    [0, 2^32) (resp. [0, 2^64)). *)
Theorem chrl_ordl_inverse :
  (forall i b, chrl i = inr b <-> ordl b = inr i) /\
  (forall i, chrl i = inl StructError <-> ~ (0 <= i < 2 ^ 32)) /\
  (forall i b, chrq i = inr b <-> ordq b = inr i) /\
  (forall i, chrq i = inl StructError <-> ~ (0 <= i < 2 ^ 64)).
Proof.
  assert (Hpack : forall k w i b,
    256 ^ Z.of_nat k = 2 ^ w ->
    ((if (0 <=? i) && (i <? 2 ^ w) then inr (be_bytes k i) else inl StructError)
       = (inr b : exn + list ascii) <->
     (if Nat.eqb (List.length b) k then inr (be_value b) else inl StructError)
       = (inr i : exn + Z))).
  { intros k w i b Hw. rewrite <- Hw.
    destruct (pack_unpack k i b) as [H1 H2].
    destruct ((0 <=? i) && (i <? 256 ^ Z.of_nat k)) eqn:Hr;
      destruct (Nat.eqb (List.length b) k) eqn:Hl; split; intros H;
      try discriminate H.
    - apply andb_true_iff in Hr as [Hr1 Hr2]. apply Z.leb_le in Hr1.
      apply Z.ltb_lt in Hr2. injection H as H.
      destruct (H1 (conj Hr1 Hr2) H) as [_ ->]. reflexivity.
    - apply Nat.eqb_eq in Hl. injection H as H.
      destruct (H2 Hl H) as [_ ->]. reflexivity.
    - apply andb_true_iff in Hr as [Hr1 Hr2]. apply Z.leb_le in Hr1.
      apply Z.ltb_lt in Hr2. injection H as H.
      destruct (H1 (conj Hr1 Hr2) H) as [Hlen _].
      apply Nat.eqb_neq in Hl. contradiction.
    - apply Nat.eqb_eq in Hl. injection H as H.
      destruct (H2 Hl H) as [Hi _].
      rewrite (proj2 (Z.leb_le 0 i) (proj1 Hi)), (proj2 (Z.ltb_lt _ _) (proj2 Hi)) in Hr.
      discriminate Hr. }
  assert (Hrange : forall w i,
    (0 <=? i) && (i <? 2 ^ w) = false <-> ~ (0 <= i < 2 ^ w)).
  { intros w i. rewrite andb_false_iff, Z.leb_gt, Z.ltb_ge. lia. }
  unfold chrl, ordl, chrq, ordq. split; [|split; [|split]].
  - intros i b. apply (Hpack 4%nat 32). reflexivity.
  - intros i. rewrite <- (Hrange 32 i).
    destruct ((0 <=? i) && (i <? 2 ^ 32)); split; intros H; congruence.
  - intros i b. apply (Hpack 8%nat 64). reflexivity.
  - intros i. rewrite <- (Hrange 64 i).
    destruct ((0 <=? i) && (i <? 2 ^ 64)); split; intros H; congruence.
Qed.

Lemma le_value_rev (b : list ascii) : le_value b = be_value (rev b).
Proof.
  induction b as [|c b IH]; [reflexivity|].
  cbn [le_value fold_right rev]. rewrite be_value_app.
  fold (le_value b). rewrite IH. lia.
Qed.

(** The little-endian readers [lordw], [lordl] and [lordq] read what the
    big-endian ones read from the reversed bytes, and fail on the same
    lengths. *)
Theorem lord_reversed (b : list ascii) :
  lordw b = ordw (rev b) /\ lordl b = ordl (rev b) /\ lordq b = ordq (rev b).
Proof.
  unfold lordw, lordl, lordq, ordw, ordl, ordq.
  rewrite length_rev, le_value_rev. repeat split.
Qed.

(** ** Properties of [version] and [flags] *)

(** On the first four bytes of a full box body, [version] and [flags]
    split the big-endian 32-bit word: [version] is its top byte and
    [flags] its low 24 bits.  [flags] raises [IndexError] on fewer than
    four bytes, [version] on an empty string. *)
Theorem version_flags_split (buf : list ascii) :
  ((4 <= List.length buf)%nat -> exists v f,
     version buf = inr v /\ flags buf = inr f /\ 0 <= v < 256 /\ 0 <= f < 2 ^ 24 /\
     ordl (firstn 4 buf) = inr (v * 2 ^ 24 + f)) /\
  ((List.length buf < 4)%nat -> flags buf = inl IndexError) /\
  (buf = [] -> version buf = inl IndexError).
Proof.
  destruct buf as [|a [|b [|c [|d rest]]]]; cbn [List.length];
    (split; [intros Hl; try lia|split; intros Hl; try lia; try reflexivity; try discriminate Hl]).
  exists (ordb a), (Z.shiftl (ordb b) 16 + Z.shiftl (ordb c) 8 + Z.shiftl (ordb d) 0).
  split; [reflexivity|]. split; [reflexivity|].
  rewrite !Z.shiftl_mul_pow2 by lia.
  pose proof (ordb_range a); pose proof (ordb_range b);
    pose proof (ordb_range c); pose proof (ordb_range d).
  split; [lia|]. split; [cbn; lia|].
  cbn [firstn]. unfold ordl. cbn [List.length Nat.eqb]. f_equal.
  unfold be_value. cbn [fold_left]. cbn. lia.
Qed.

(** ** Properties of [fromCString] *)

Lemma fromCString_loop_app (pre post : list ascii) (res : string) :
  fromCString_loop (pre ++ Ascii.zero :: post) res = fromCString_loop pre res.
Proof.
  revert res; induction pre as [|c pre IH]; intros res; [reflexivity|].
  cbn [app fromCString_loop].
  destruct (ordb c =? 0); [reflexivity|].
  destruct ((ordb c <? 32) || (127 <? ordb c)); apply IH.
Qed.

(** [fromCString] reads a C string: the result depends only on the bytes
    before the first NUL byte. *)
Theorem fromCString_stops_at_nul (pre post : list ascii) :
  fromCString (pre ++ Ascii.zero :: post) = fromCString pre.
Proof. apply fromCString_loop_app. Qed.

Definition printable (c : ascii) : bool := (32 <=? ordb c) && (ordb c <=? 127).

Lemma printable_string_app (a b : string) :
  forallb printable (list_ascii_of_string (a ++ b)) =
  forallb printable (list_ascii_of_string a) && forallb printable (list_ascii_of_string b).
Proof.
  induction a as [|c a IH]; [reflexivity|]. cbn. rewrite IH. apply andb_assoc.
Qed.

Lemma oct3_printable (ch : Z) :
  0 <= ch < 256 -> forallb printable (list_ascii_of_string (oct3 ch)) = true.
Proof.
  intros Hch. unfold oct3. cbn [list_ascii_of_string forallb].
  pose proof (Z.mod_pos_bound (ch / 8) 8 ltac:(lia)).
  pose proof (Z.mod_pos_bound ch 8 ltac:(lia)).
  assert (0 <= ch / 64 < 4) by (split; [apply Z.div_pos | apply Z.div_lt_upper_bound]; lia).
  unfold printable. rewrite !ordb_ascii_of_N by lia.
  repeat (rewrite andb_true_iff; split); rewrite ?Z.leb_le; lia.
Qed.

Lemma fromCString_loop_printable (buf : list ascii) (res : string) :
  forallb printable (list_ascii_of_string res) = true ->
  forallb printable (list_ascii_of_string (fromCString_loop buf res)) = true.
Proof.
  revert res; induction buf as [|c buf IH]; intros res Hres; [exact Hres|].
  cbn [fromCString_loop]. pose proof (ordb_range c).
  destruct (ordb c =? 0) eqn:H0; [exact Hres|].
  destruct ((ordb c <? 32) || (127 <? ordb c)) eqn:Hp; apply IH;
    rewrite printable_string_app, Hres; cbn [andb].
  - cbn [list_ascii_of_string forallb]. rewrite oct3_printable by lia.
    reflexivity.
  - apply orb_false_iff in Hp as [H1 H2]. apply Z.ltb_ge in H1, H2.
    cbn [list_ascii_of_string forallb]. unfold printable.
    rewrite ordb_ascii_of_N by lia.
    rewrite (proj2 (Z.leb_le _ _) H1), (proj2 (Z.leb_le _ _) H2). reflexivity.
Qed.

(** [fromCString] never emits a control byte or a byte above 127: every
    byte of its result lies in [32, 127]. *)
Theorem fromCString_printable (buf : list ascii) :
  forallb printable (list_ascii_of_string (fromCString buf)) = true.
Proof. apply fromCString_loop_printable. reflexivity. Qed.

Lemma ascii_of_N_ordb (c : ascii) : ascii_of_N (Z.to_N (ordb c)) = c.
Proof. unfold ordb. rewrite N2Z.id. apply ascii_N_embedding. Qed.

Lemma string_of_list_ascii_app (a b : list ascii) :
  string_of_list_ascii (a ++ b) = (string_of_list_ascii a ++ string_of_list_ascii b)%string.
Proof. induction a as [|c a IH]; [reflexivity|]. cbn. rewrite IH. reflexivity. Qed.

Lemma str_append_nil_r (a : string) : (a ++ "")%string = a.
Proof. induction a as [|c a IH]; [reflexivity|]. cbn. rewrite IH. reflexivity. Qed.

(** On bytes that are all in [32, 127] (so without NUL), [fromCString]
    returns its input unchanged. *)
Theorem fromCString_identity (buf : list ascii) :
  forallb printable buf = true -> fromCString buf = string_of_list_ascii buf.
Proof.
  intros Hp. unfold fromCString.
  enough (H : forall res, fromCString_loop buf res = (res ++ string_of_list_ascii buf)%string)
    by (rewrite H; reflexivity).
  induction buf as [|c buf IH]; intros res.
  - cbn. rewrite str_append_nil_r. reflexivity.
  - cbn [forallb] in Hp. apply andb_true_iff in Hp as [Hc Hp].
    unfold printable in Hc. apply andb_true_iff in Hc as [H1 H2].
    apply Z.leb_le in H1, H2.
    cbn [fromCString_loop].
    replace (ordb c =? 0) with false by (symmetry; apply Z.eqb_neq; lia).
    replace ((ordb c <? 32) || (127 <? ordb c)) with false
      by (symmetry; apply orb_false_iff; split; apply Z.ltb_ge; lia).
    rewrite IH by exact Hp. rewrite ascii_of_N_ordb, str_append_assoc.
    reflexivity.
Qed.

(** ** Properties of [secsToTime] *)

Definition daysperyear (year : Z) : Z := if leap_of year then 366 else 365.

Lemma leap_of_400 (year : Z) : leap_of year = (year mod 400 =? 0).
Proof. unfold leap_of. destruct (year mod 400 =? 0); reflexivity. Qed.

Lemma year_loop_ends fuel year total :
  (0 < fuel)%nat -> total < 365 * Z.of_nat fuel ->
  exists y t, year_loop fuel year total = Some (y, t, leap_of y) /\
    t < daysperyear y /\ (0 <= total -> 0 <= t /\ year <= y).
Proof.
  revert year total; induction fuel as [|f IH]; intros year total Hf Ht; [lia|].
  cbn [year_loop]. fold (daysperyear year).
  assert (Hd : 365 <= daysperyear year <= 366)
    by (unfold daysperyear; destruct (leap_of year); lia).
  destruct (total <? daysperyear year) eqn:Hlt.
  - apply Z.ltb_lt in Hlt. exists year, total. repeat split; lia.
  - apply Z.ltb_ge in Hlt.
    destruct (IH (year + 1) (total - daysperyear year) ltac:(lia) ltac:(lia))
      as [y [t [Hy [Hty Hnn]]]].
    exists y, t. split; [exact Hy|]. split; [exact Hty|].
    intros _. destruct Hnn as [Ht0 Hyr]; lia.
Qed.

Fixpoint sumZ (l : list Z) : Z :=
  match l with [] => 0 | x :: l' => x + sumZ l' end.

Lemma month_loop_ends ds month total :
  ds <> [] -> Forall (fun t => 0 < t <= 31) ds -> total < sumZ ds ->
  exists m t, month_loop ds month total = (m, t) /\
    month <= m < month + Z.of_nat (List.length ds) /\ t < 31 /\
    (0 <= total -> 0 <= t) /\ (total < 0 -> m = month /\ t = total).
Proof.
  revert month total; induction ds as [|x ds IH]; intros month total Hne Hds Ht;
    [congruence|].
  inversion Hds as [|? ? Hx Hds']; subst. cbn [month_loop sumZ] in *.
  destruct (total <? x) eqn:Hlt.
  - apply Z.ltb_lt in Hlt. exists month, total. cbn [List.length]. repeat split; lia.
  - apply Z.ltb_ge in Hlt.
    assert (Hne' : ds <> []) by (intros ->; cbn in Ht; lia).
    destruct (IH (month + 1) (total - x) Hne' Hds' ltac:(lia))
      as [m [t [Hm [Hr [Ht31 [Hnn _]]]]]].
    exists m, t. cbn [List.length]. repeat split; try lia; auto.
Qed.

Lemma month_loop_mono ds month total m t :
  month_loop ds month total = (m, t) -> month <= m.
Proof.
  revert month total; induction ds as [|x ds IH]; intros month total H; cbn in H.
  - injection H as <- <-. lia.
  - destruct (total <? x); [injection H as <- <-; lia|]. apply IH in H. lia.
Qed.

(** [secsToTime] never fails: [monthnames[month]] is always in range
    (the month loop ends within the year the year loop stopped at).  The
    time of day is [total] modulo one day; for a non-negative [total] the
    day of the month is between 1 and 31 and the year is 1904 or later.
    For a negative [total] the date is the 1904 epoch shifted backwards
    inside January: day [total / 86400 + 1], which is at most 0. *)
Theorem secsToTime_fields (total : Z) :
  exists day name year,
    secsToTime total = Some (inr ((total / 3600) mod 24, (total / 60) mod 60, total mod 60,
                                  day, name, year)) /\
    In name monthnames /\
    (0 <= total -> 1 <= day <= 31 /\ 1904 <= year) /\
    (total < 0 -> day = total / 86400 + 1 /\ name = "Jan"%string /\ year = 1904).
Proof.
  unfold secsToTime. cbv zeta.
  replace (total / 60 / 60 / 24) with (total / 86400) by (rewrite !Z.div_div by lia; reflexivity).
  replace (total / 60 / 60) with (total / 3600) by (rewrite !Z.div_div by lia; reflexivity).
  set (days := total / 86400).
  assert (Hfuel : days < 365 * Z.of_nat (S (Z.to_nat days))).
  { rewrite Nat2Z.inj_succ. lia. }
  destruct (year_loop_ends (S (Z.to_nat days)) 1904 days ltac:(lia) Hfuel)
    as [y [t [Hy [Hty Hnn]]]].
  rewrite Hy.
  set (dpm := if leap_of y then list_set dayspermonth0 1 29 else dayspermonth0).
  assert (Hdpm : Forall (fun t => 0 < t <= 31) dpm /\ sumZ dpm = daysperyear y /\
                 List.length dpm = 12%nat).
  { subst dpm. unfold daysperyear. destruct (leap_of y); cbn;
      (split; [repeat constructor; lia | split; reflexivity]). }
  destruct Hdpm as [Hf [Hsum Hlen]].
  assert (Hne : dpm <> []) by (subst dpm; destruct (leap_of y); discriminate).
  destruct (month_loop_ends dpm 0 t Hne Hf ltac:(lia)) as [m [d [Hm [Hmr [H31 [Hdnn Hneg]]]]]].
  rewrite Hm. rewrite Hlen in Hmr.
  assert (Hname : exists name, nth_error monthnames (Z.to_nat m) = Some name /\
                               In name monthnames).
  { destruct (nth_error monthnames (Z.to_nat m)) as [name|] eqn:E.
    - exists name. split; [reflexivity|]. eapply nth_error_In; exact E.
    - apply nth_error_None in E. cbn in E. lia. }
  destruct Hname as [name [Hn Hin]]. rewrite Hn.
  exists (d + 1), name, y. split; [reflexivity|]. split; [exact Hin|]. split.
  - intros Htot. assert (0 <= days) by (apply Z.div_pos; lia).
    destruct (Hnn ltac:(lia)) as [Ht0 Hy0]. specialize (Hdnn Ht0). lia.
  - intros Htot. assert (Hd0 : days < 0) by (apply Z.div_lt_upper_bound; lia).
    (* a negative day count stops both loops at once *)
    cbn [year_loop] in Hy. fold (daysperyear 1904) in Hy.
    replace (days <? daysperyear 1904) with true in Hy
      by (symmetry; apply Z.ltb_lt; unfold daysperyear; destruct (leap_of 1904); lia).
    injection Hy as <- <-.
    destruct (Hneg Hd0) as [-> ->]. cbn in Hn. injection Hn as <-.
    repeat split; lia.
Qed.

Lemma month_loop_cons x ds month total :
  month_loop (x :: ds) month total =
  if total <? x then (month, total) else month_loop ds (month + 1) (total - x).
Proof. reflexivity. Qed.

Lemma year_loop_leap fuel year total y t leap :
  year_loop fuel year total = Some (y, t, leap) -> leap = leap_of y.
Proof.
  revert year total; induction fuel as [|f IH]; intros year total Hy; cbn in Hy;
    [discriminate Hy|].
  destruct (total <? _); [injection Hy as <- <- <-; reflexivity|].
  exact (IH _ _ Hy).
Qed.

(** The leap-year test of [secsToTime] looks at [leap] instead of [year]
    in its [% 100] and [% 4] branches, so only years divisible by 400 are
    leap years: whenever [secsToTime] reports a 29 February, the year is a
    multiple of 400 (1904, 1908, ... never get one). *)
Theorem secsToTime_feb29 (total h m s year : Z) :
  secsToTime total = Some (inr (h, m, s, 29, "Feb"%string, year)) ->
  year mod 400 = 0.
Proof.
  unfold secsToTime. intros H.
  destruct (year_loop _ 1904 _) as [[[y t] leap]|] eqn:Hy; [|discriminate H].
  apply year_loop_leap in Hy as ->. destruct (leap_of y) eqn:Hl.
  - rewrite leap_of_400 in Hl. apply Z.eqb_eq in Hl.
    destruct (month_loop _ 0 t) as [mo d] eqn:Hm.
    destruct (nth_error monthnames (Z.to_nat mo)); [|discriminate H].
    injection H; intros; subst; exact Hl.
  - exfalso. unfold dayspermonth0 in H. rewrite month_loop_cons in H. rewrite month_loop_cons in H.
    destruct (t <? 31) eqn:H1.
    { cbn in H. injection H; intros; discriminate. }
    destruct (t - 31 <? 28) eqn:H2.
    { cbn in H. apply Z.ltb_lt in H2. injection H; intros; lia. }
    destruct (month_loop _ _ _) as [mo d] eqn:Hm.
    apply month_loop_mono in Hm.
    destruct (nth_error monthnames (Z.to_nat mo)) as [n|] eqn:Hn; [|discriminate H].
    injection H; intros; subst n.
    assert (Hmo : (2 <= Z.to_nat mo)%nat) by lia.
    destruct (Z.to_nat mo) as [|[|k]]; [lia|lia|].
    destruct k as [|[|[|[|[|[|[|[|[|[|k]]]]]]]]]]; cbn in Hn;
      [congruence ..|destruct k; discriminate Hn].
Qed.

(** ** Walking a scope made of boxes *)

Lemma encode_box_length tag body :
  List.length tag = 4%nat ->
  Z.of_nat (List.length (encode_box tag body)) = 8 + Z.of_nat (List.length body).
Proof.
  intros Ht. unfold encode_box. rewrite !length_app, be_bytes_length, Ht. lia.
Qed.

(** One loop iteration over a well-formed box with a hook that returns. *)
Lemma parse_step_box (h : hook) s tag body rest :
  (forall ctx id d, fst (h ctx id d) = None) ->
  0 <= infile_pos s -> box_end s = 0 \/ infile_pos s < box_end s ->
  well_formed_box (tag, body) ->
  skipn (Z.to_nat (infile_pos s)) (infile_data s) = encode_box tag body ++ rest ->
  exists s', parse_step h s = (inr true, s') /\
    infile_data s' = infile_data s /\ box_end s' = box_end s /\
    infile_pos s' = infile_pos s + 8 + Z.of_nat (List.length body) /\
    offset s' = offset s + 8 + Z.of_nat (List.length body) /\
    printed s' = printed s ++ [(offset s, tag)].
Proof.
  intros Hh Hp Hscope [Htag [Hasc HL]] Hs. cbn [fst snd] in *.
  set (L := 8 + Z.of_nat (List.length body)) in *.
  unfold encode_box in Hs. fold L in Hs. rewrite <- app_assoc, <- app_assoc in Hs.
  pose proof (parse_header_full s (be_bytes 4 L) tag (body ++ rest) Hp Hscope Hs
                (be_bytes_length 4 L) Htag (decode_ascii_ok tag Hasc)) as Hhd.
  rewrite be_value_be_bytes in Hhd by (change (256 ^ Z.of_nat 4) with (2 ^ 32); lia).
  rewrite read_xlbox_plain in Hhd by lia.
  set (s1 := set_boxsize (after_lbox_tbox s) (L - 8)) in Hhd.
  set (ctx := set_printed (set_target (set_bodysize s1 (L - 8)) (infile_pos s1 + (L - 8)))
                          (printed s1 ++ [(offset s1 - hdrsize s1, tag)])).
  destruct (h ctx tag (Decimal (L - 8))) as [r p] eqn:Ehook.
  assert (r = None) as -> by (rewrite <- (Hh ctx tag (Decimal (L - 8))), Ehook; reflexivity).
  eexists. split.
  { unfold parse_step. rewrite (bind_inr _ _ _ _ _ Hhd).
    rewrite bind_modify, bind_tell, bind_modify. unfold new_box.
    rewrite bind_modify. erewrite bind_call_hook by exact Ehook.
    rewrite bind_get. unfold seek. rewrite bind_modify, bind_modify.
    reflexivity. }
  assert (HLdef : L = 8 + Z.of_nat (List.length body)) by reflexivity.
  clearbody L. subst ctx s1.
  cbn [infile_pos infile_data box_end offset printed hdrsize target set_pos set_offset
       set_printed set_target set_bodysize set_boxsize set_hdrsize after_lbox_tbox].
  repeat split; try lia.
  do 3 f_equal. lia.
Qed.

(** Where nothing is left to decode, the next iteration returns and
    leaves the cursor and the printed boxes as they are. *)
Lemma parse_step_end h s :
  0 <= infile_pos s ->
  (0 < box_end s /\ infile_pos s = box_end s) \/
  (box_end s = 0 /\ skipn (Z.to_nat (infile_pos s)) (infile_data s) = []) ->
  exists s', parse_step h s = (inr false, s') /\ printed s' = printed s /\
    infile_pos s' = infile_pos s.
Proof.
  intros Hp Hend. unfold parse_step, parse_header.
  rewrite bind_assoc, bind_get.
  destruct Hend as [[H0 Heq] | [H0 Hnil]].
  - replace ((0 <? box_end s) && (infile_pos s =? box_end s)) with true
      by (symmetry; apply andb_true_intro; split; [apply Z.ltb_lt | apply Z.eqb_eq]; lia).
    eexists; split; [reflexivity|split; reflexivity].
  - rewrite H0. cbn [Z.ltb Z.compare andb]. unfold read_box_header.
    rewrite bind_assoc.
    rewrite (bind_inr _ _ _ _ _ (read_short s 4 ltac:(rewrite Hnil; cbn; lia))).
    rewrite Hnil. eexists; split; [reflexivity|]. cbn. split; [reflexivity|lia].
Qed.

Lemma walk_boxes (h : hook) boxes :
  (forall ctx id d, fst (h ctx id d) = None) ->
  Forall well_formed_box boxes ->
  forall s rest fuel,
  0 <= infile_pos s ->
  skipn (Z.to_nat (infile_pos s)) (infile_data s) = encode_boxes boxes ++ rest ->
  box_end s = 0 \/ infile_pos s + Z.of_nat (List.length (encode_boxes boxes)) <= box_end s ->
  exists s', parse (List.length boxes + fuel) h s = parse fuel h s' /\
    infile_data s' = infile_data s /\ box_end s' = box_end s /\
    infile_pos s' = infile_pos s + Z.of_nat (List.length (encode_boxes boxes)) /\
    offset s' = offset s + Z.of_nat (List.length (encode_boxes boxes)) /\
    printed s' = printed s ++ box_starts (offset s) boxes.
Proof.
  intros Hh Hwf. induction Hwf as [|[tag body] boxes Hb Hwf IH]; intros s rest fuel Hp Hs Hend.
  - exists s. cbn. rewrite app_nil_r. repeat split; lia.
  - pose proof Hb as [Htag _]. cbn [fst] in Htag.
    unfold encode_boxes in Hs, Hend. cbn [map List.concat] in Hs, Hend.
    fold (encode_boxes boxes) in Hs, Hend. cbn [fst snd] in Hs, Hend.
    rewrite length_app, Nat2Z.inj_add, encode_box_length in Hend by exact Htag.
    rewrite <- app_assoc in Hs.
    destruct (parse_step_box h s tag body (encode_boxes boxes ++ rest) Hh Hp
                ltac:(lia) Hb Hs)
      as [s1 [Hstep [Hd1 [He1 [Hp1 [Ho1 Hpr1]]]]]].
    assert (Hs1 : skipn (Z.to_nat (infile_pos s1)) (infile_data s1) = encode_boxes boxes ++ rest).
    { rewrite Hd1, Hp1.
      replace (Z.to_nat (infile_pos s + 8 + Z.of_nat (List.length body)))
        with (List.length (encode_box tag body) + Z.to_nat (infile_pos s))%nat.
      - rewrite <- skipn_skipn, Hs, skipn_app, Nat.sub_diag, skipn_all, app_nil_l.
        reflexivity.
      - pose proof (encode_box_length tag body Htag). lia. }
    assert (Hp1' : 0 <= infile_pos s1) by lia.
    assert (Hend1 : box_end s1 = 0 \/
      infile_pos s1 + Z.of_nat (List.length (encode_boxes boxes)) <= box_end s1).
    { rewrite He1, Hp1. cbn [snd] in Hend. lia. }
    destruct (IH s1 rest fuel Hp1' Hs1 Hend1)
      as [s2 [Hrun [Hd2 [He2 [Hp2 [Ho2 Hpr2]]]]]].
    exists s2. split.
    { cbn [List.length]. rewrite Nat.add_succ_l, parse_S, (bind_inr _ _ _ _ _ Hstep).
      exact Hrun. }
    unfold encode_boxes. cbn [map List.concat fst snd]. fold (encode_boxes boxes).
    rewrite length_app, Nat2Z.inj_add, encode_box_length by exact Htag.
    rewrite Hd2, He2, Hp2, Ho2, Hpr2, Hd1, He1, Hp1, Ho1, Hpr1, <- app_assoc.
    repeat split; lia.
Qed.

(** [JP2Box.parse] over a scope holding a sequence of well-formed boxes,
    with a hook that returns: the walk returns after one iteration per
    box plus the final one, reports every box at its start offset (counted
    from [offset] on) with its type tag, and leaves the cursor after the
    last box.  This holds for the whole source ([end] 0, nothing after the
    boxes) and for a bounded scope that ends right after the last box (any
    bytes may follow it), whatever the hooks read or where they left the
    shared cursor. *)
Theorem parse_walks_boxes (h : hook) s boxes rest :
  (forall ctx id d, fst (h ctx id d) = None) ->
  0 <= infile_pos s -> Forall well_formed_box boxes ->
  skipn (Z.to_nat (infile_pos s)) (infile_data s) = encode_boxes boxes ++ rest ->
  (box_end s = 0 /\ rest = []) \/
  (0 < box_end s /\ box_end s = infile_pos s + Z.of_nat (List.length (encode_boxes boxes))) ->
  exists s', parse (S (List.length boxes)) h s = (inr true, s') /\
    printed s' = printed s ++ box_starts (offset s) boxes /\
    infile_pos s' = infile_pos s + Z.of_nat (List.length (encode_boxes boxes)).
Proof.
  intros Hh Hp Hwf Hs Hend.
  destruct (walk_boxes h boxes Hh Hwf s rest 1 Hp Hs ltac:(lia))
    as [s1 [Hrun [Hd1 [He1 [Hp1 [_ Hpr1]]]]]].
  assert (Hstop : (0 < box_end s1 /\ infile_pos s1 = box_end s1) \/
                  (box_end s1 = 0 /\ skipn (Z.to_nat (infile_pos s1)) (infile_data s1) = [])).
  { destruct Hend as [[H0 ->] | [H0 H1]]; [right | left]; rewrite ?He1; split; try lia.
    rewrite Hd1, Hp1, Z2Nat.inj_add by lia.
    rewrite Nat2Z.id, Nat.add_comm, <- skipn_skipn, Hs, app_nil_r. apply skipn_all. }
  destruct (parse_step_end h s1 ltac:(lia) Hstop) as [s2 [Hstep [Hpr2 Hp2]]].
  exists s2. rewrite <- Nat.add_1_r, Hrun. cbn [parse].
  rewrite (bind_inr _ _ _ _ _ Hstep). split; [reflexivity|]. split; congruence.
Qed.

(** A [JP2Box(box, infile)] built inside a hook, over the body of the box
    at hand, walks exactly the boxes of that body: its scope is the
    parent's [target], its offsets continue the parent's, and it stops at
    the parent's [target] without reading the bytes after it. *)
Theorem child_walks_body (h : hook) ctx children rest :
  (forall c id d, fst (h c id d) = None) ->
  0 <= infile_pos ctx -> Forall well_formed_box children ->
  skipn (Z.to_nat (infile_pos ctx)) (infile_data ctx) = encode_boxes children ++ rest ->
  target ctx = infile_pos ctx + Z.of_nat (List.length (encode_boxes children)) ->
  0 < target ctx ->
  exists s', parse (S (List.length children)) h
               (new_jbox (Some ctx) (infile_data ctx) (infile_pos ctx) 0) = (inr true, s') /\
    printed s' = box_starts (offset ctx) children /\ infile_pos s' = target ctx.
Proof.
  intros Hh Hp Hwf Hs Ht H0.
  destruct (parse_walks_boxes h (new_jbox (Some ctx) (infile_data ctx) (infile_pos ctx) 0)
              children rest Hh Hp Hwf Hs ltac:(right; cbn; lia))
    as [s' [Hrun [Hpr Hpos]]].
  exists s'. split; [exact Hrun|]. cbn in Hpr, Hpos.
  rewrite Z.add_0_r in Hpr. split; [exact Hpr | lia].
Qed.

(** In a bounded scope, a box whose declared length runs past the end of
    the scope is not clamped: its hook is called and the loop seeks past
    the scope's end, so the next iteration raises
    [InvalidBoxLength("unknown box")]. *)
Theorem parse_box_overruns_scope (h : hook) s tag body rest fuel :
  (forall ctx id d, fst (h ctx id d) = None) ->
  0 <= infile_pos s -> infile_pos s < box_end s -> well_formed_box (tag, body) ->
  skipn (Z.to_nat (infile_pos s)) (infile_data s) = encode_box tag body ++ rest ->
  box_end s < infile_pos s + 8 + Z.of_nat (List.length body) ->
  exists s', parse (S (S fuel)) h s = (inl (InvalidBoxLength "unknown box"), s') /\
    printed s' = printed s ++ [(offset s, tag)].
Proof.
  intros Hh Hp Hlt Hb Hs Hover.
  destruct (parse_step_box h s tag body rest Hh Hp ltac:(lia) Hb Hs)
    as [s1 [Hstep [_ [He1 [Hp1 [_ Hpr1]]]]]].
  exists s1. rewrite parse_S, (bind_inr _ _ _ _ _ Hstep), parse_S.
  unfold parse_step, parse_header. rewrite !bind_assoc, bind_get.
  replace ((0 <? box_end s1) && (infile_pos s1 =? box_end s1)) with false
    by (symmetry; apply andb_false_intro2, Z.eqb_neq; lia).
  replace ((0 <? box_end s1) && (box_end s1 <? infile_pos s1)) with true
    by (symmetry; apply andb_true_intro; split; apply Z.ltb_lt; lia).
  split; [reflexivity | exact Hpr1].
Qed.

Lemma bind_call_hook_raise {B} (h : hook) id d s (k : unit -> M B) e p :
  h s id d = (Some e, p) -> bind (call_hook h id d) k s = (inl e, set_pos s p).
Proof. unfold bind, call_hook. intros ->. reflexivity. Qed.

(** [parse] has no handler: an exception the hook raises on a box ends
    the walk with that exception, after the box has been printed; the
    cursor is where the hook left it. *)
Theorem parse_hook_exception_propagates (h : hook) s tag body rest e fuel :
  (forall ctx d, fst (h ctx tag d) = Some e) ->
  0 <= infile_pos s -> box_end s = 0 \/ infile_pos s < box_end s ->
  well_formed_box (tag, body) ->
  skipn (Z.to_nat (infile_pos s)) (infile_data s) = encode_box tag body ++ rest ->
  exists s', parse (S fuel) h s = (inl e, s') /\
    printed s' = printed s ++ [(offset s, tag)].
Proof.
  intros Hh Hp Hscope [Htag [Hasc HL]] Hs. cbn [fst snd] in *.
  set (L := 8 + Z.of_nat (List.length body)) in *.
  unfold encode_box in Hs. fold L in Hs. rewrite <- app_assoc, <- app_assoc in Hs.
  pose proof (parse_header_full s (be_bytes 4 L) tag (body ++ rest) Hp Hscope Hs
                (be_bytes_length 4 L) Htag (decode_ascii_ok tag Hasc)) as Hhd.
  rewrite be_value_be_bytes in Hhd by (change (256 ^ Z.of_nat 4) with (2 ^ 32); lia).
  rewrite read_xlbox_plain in Hhd by lia.
  set (s1 := set_boxsize (after_lbox_tbox s) (L - 8)) in Hhd.
  set (ctx := set_printed (set_target (set_bodysize s1 (L - 8)) (infile_pos s1 + (L - 8)))
                          (printed s1 ++ [(offset s1 - hdrsize s1, tag)])).
  destruct (h ctx tag (Decimal (L - 8))) as [r p] eqn:Ehook.
  assert (r = Some e) as -> by (rewrite <- (Hh ctx (Decimal (L - 8))), Ehook; reflexivity).
  eexists. split.
  { rewrite parse_S. unfold parse_step. rewrite bind_assoc, (bind_inr _ _ _ _ _ Hhd).
    rewrite bind_assoc, bind_modify, bind_assoc, bind_tell, bind_assoc, bind_modify.
    unfold new_box. rewrite bind_assoc, bind_modify, bind_assoc.
    erewrite bind_call_hook_raise by exact Ehook. reflexivity. }
  subst ctx s1.
  cbn [infile_pos infile_data box_end offset printed hdrsize target set_pos set_offset
       set_printed set_target set_bodysize set_boxsize set_hdrsize after_lbox_tbox].
  do 3 f_equal. lia.
Qed.

(** ** Witnesses of the properties above *)

(** [Buffer.read(2)] at offset 2 of a 5-byte buffer and [infile.read(2)]
    at the same place agree. *)
Lemma buffer_read_as_file_witness :
  fst (read 2 (new_jbox None (bytes_of [1; 2; 3; 4; 5]) 2 0)) =
    inr (fst (buffer_read 2 (mkBuffer 2 (bytes_of [1; 2; 3; 4; 5])))) /\
  infile_pos (snd (read 2 (new_jbox None (bytes_of [1; 2; 3; 4; 5]) 2 0))) =
    buffer_tell (snd (buffer_read 2 (mkBuffer 2 (bytes_of [1; 2; 3; 4; 5])))).
Proof.
  refine (buffer_read_as_file 2 (mkBuffer 2 (bytes_of [1; 2; 3; 4; 5]))
            (new_jbox None (bytes_of [1; 2; 3; 4; 5]) 2 0) _ _ eq_refl eq_refl).
  - cbn. lia.
  - left. lia.
Defined.

(** Reading 2 then 10 bytes from offset 1 of a 5-byte buffer. *)
Lemma buffer_read_concat_witness :
  let (r1, b1) := buffer_read 2 (mkBuffer 1 (bytes_of [1; 2; 3; 4; 5])) in
  let (r2, b2) := buffer_read 10 b1 in
  buffer_read (2 + 10) (mkBuffer 1 (bytes_of [1; 2; 3; 4; 5])) = (r1 ++ r2, b2).
Proof.
  refine (buffer_read_concat 2 10 (mkBuffer 1 (bytes_of [1; 2; 3; 4; 5])) _ _ _);
    cbn; lia.
Defined.

(** The C string ["jp2 "]. *)
Lemma fromCString_identity_witness :
  fromCString (list_ascii_of_string "jp2 ") = string_of_list_ascii (list_ascii_of_string "jp2 ").
Proof. apply fromCString_identity. reflexivity. Defined.

(** 29 February 2000, 01:02:03. *)
Lemma secsToTime_feb29_witness :
  secsToTime (35099 * 86400 + 3723) = Some (inr (1, 2, 3, 29, "Feb"%string, 2000)) /\
  2000 mod 400 = 0.
Proof.
  assert (H : secsToTime (35099 * 86400 + 3723) = Some (inr (1, 2, 3, 29, "Feb"%string, 2000)))
    by (vm_compute; reflexivity).
  split; [exact H | exact (secsToTime_feb29 _ _ _ _ _ H)].
Defined.

Definition walk_witness_boxes : list (list ascii * list ascii) :=
  [(list_ascii_of_string "jp2h", bytes_of [1; 2]); (list_ascii_of_string "free", [])].

Lemma walk_witness_boxes_ok : Forall well_formed_box walk_witness_boxes.
Proof.
  repeat constructor; unfold well_formed_box; cbn; split; try reflexivity; lia.
Qed.

(** The whole source is a 10-byte box ["jp2h"] and an 8-byte box
    ["free"], and the hook seeks 100 bytes further than it was given. *)
Lemma parse_walks_boxes_witness :
  exists s', parse 3 (fun ctx _ _ => (None, infile_pos ctx + 100))
               (new_jbox None (encode_boxes walk_witness_boxes) 0 0) = (inr true, s') /\
    printed s' = [(0, list_ascii_of_string "jp2h"); (10, list_ascii_of_string "free")] /\
    infile_pos s' = 18.
Proof.
  destruct (parse_walks_boxes (fun ctx _ _ => (None, infile_pos ctx + 100))
              (new_jbox None (encode_boxes walk_witness_boxes) 0 0) walk_witness_boxes []
              (fun _ _ _ => eq_refl) (Z.le_refl 0) walk_witness_boxes_ok
              (eq_sym (app_nil_r _)) (or_introl (conj eq_refl eq_refl)))
    as [s' [Hrun [Hpr Hpos]]].
  exists s'. split; [exact Hrun|]. rewrite Hpr, Hpos. split; reflexivity.
Defined.

(** A hook context right after an 8-byte container header, at offset 8,
    whose body holds the two boxes above and is followed by 3 more bytes. *)
Lemma child_walks_body_witness :
  exists s', parse 3 (fun ctx _ _ => (None, infile_pos ctx))
               (new_jbox (Some (mkJbox (bytes_of [0; 0; 0; 26] ++ list_ascii_of_string "jp2h" ++
                                        encode_boxes walk_witness_boxes ++ bytes_of [7; 7; 7])
                                       8 8 0 8 18 26 18 []))
                  (bytes_of [0; 0; 0; 26] ++ list_ascii_of_string "jp2h" ++
                   encode_boxes walk_witness_boxes ++ bytes_of [7; 7; 7]) 8 0)
    = (inr true, s') /\
    printed s' = [(8, list_ascii_of_string "jp2h"); (18, list_ascii_of_string "free")] /\
    infile_pos s' = 26.
Proof.
  destruct (child_walks_body (fun ctx _ _ => (None, infile_pos ctx))
              (mkJbox (bytes_of [0; 0; 0; 26] ++ list_ascii_of_string "jp2h" ++
                       encode_boxes walk_witness_boxes ++ bytes_of [7; 7; 7])
                      8 8 0 8 18 26 18 [])
              walk_witness_boxes (bytes_of [7; 7; 7])
              (fun _ _ _ => eq_refl) (proj1 (Z.leb_le 0 8) eq_refl) walk_witness_boxes_ok
              eq_refl eq_refl (proj1 (Z.ltb_lt 0 26) eq_refl))
    as [s' [Hrun [Hpr Hpos]]].
  exists s'. split; [exact Hrun|]. rewrite Hpr, Hpos. split; reflexivity.
Defined.

(** A 10-byte scope whose first box declares 12 bytes. *)
Lemma parse_box_overruns_scope_witness :
  exists s', parse 2 (fun ctx _ _ => (None, infile_pos ctx))
               (mkJbox (encode_box (list_ascii_of_string "jp2h") (bytes_of [1; 2; 3; 4]))
                       0 0 10 0 0 0 0 [])
    = (inl (InvalidBoxLength "unknown box"), s') /\
    printed s' = [(0, list_ascii_of_string "jp2h")].
Proof.
  refine (parse_box_overruns_scope (fun ctx _ _ => (None, infile_pos ctx))
            (mkJbox (encode_box (list_ascii_of_string "jp2h") (bytes_of [1; 2; 3; 4]))
                    0 0 10 0 0 0 0 [])
            (list_ascii_of_string "jp2h") (bytes_of [1; 2; 3; 4]) [] 0
            (fun _ _ _ => eq_refl) _ _ _ _ _).
  - cbn. lia.
  - cbn. lia.
  - unfold well_formed_box; cbn. split; [reflexivity|]. split; [reflexivity|lia].
  - cbn. reflexivity.
  - cbn. lia.
Defined.

(** ** Properties of [convert_hex] *)

Section HexDump.

Variable sec_indent : Z.
Variable plain_text : bool.

Let step := convert_hex_step sec_indent plain_text.

(** What the loop appends to [lines] when it starts a new row. *)
Let close (st : hex_state) : string :=
  if plain_text then (hs_line st ++ hs_buff st)%string else hs_line st.

Lemma combine_app {A B} (a1 a2 : list A) (b1 b2 : list B) :
  List.length a1 = List.length b1 ->
  combine (a1 ++ a2) (b1 ++ b2) = combine a1 b1 ++ combine a2 b2.
Proof.
  revert b1; induction a1 as [|x a1 IH]; intros [|y b1] Hl; try discriminate Hl;
    [reflexivity|]. cbn. rewrite IH by (injection Hl; auto). reflexivity.
Qed.

Lemma mod16_inner k j : (0 < j < 16)%nat -> ((16 * k + j) mod 16 = j)%nat.
Proof.
  intros Hj. rewrite Nat.add_comm, Nat.mul_comm, Nat.Div0.mod_add.
  apply Nat.mod_small. lia.
Qed.

(** Inside a row, a byte only extends the pending line and text column. *)
Lemma hex_row_inner (c : list ascii) : forall k j st,
  (0 < j)%nat -> (j + List.length c <= 16)%nat ->
  fold_left step (combine (seq (16 * k + j) (List.length c)) c) st =
  mkHexState (hs_lines st) (hs_line st ++ hex_fields c) (hs_buff st ++ text_fields c)
             (hs_indent st).
Proof.
  induction c as [|x c IH]; intros k j st Hj Hl.
  - destruct st; cbn. rewrite !str_append_nil_r. reflexivity.
  - cbn [List.length seq combine fold_left]. cbn [List.length] in Hl.
    unfold step at 2, convert_hex_step.
    rewrite mod16_inner by lia.
    replace (Nat.eqb j 0) with false by (symmetry; apply Nat.eqb_neq; lia).
    replace (S (16 * k + j)) with (16 * k + S j)%nat by lia.
    rewrite IH by lia. cbn [hs_lines hs_line hs_buff hs_indent hex_fields text_fields].
    rewrite !str_append_assoc. reflexivity.
Qed.

(** A row of 1 to 16 bytes starting at index [16 * k]. *)
Lemma hex_row_start (c : list ascii) k st :
  (1 <= List.length c <= 16)%nat ->
  let st1 := if Nat.eqb k 0 then st
             else mkHexState (hs_lines st ++ [close st]) "" "  " sec_indent in
  fold_left step (combine (seq (16 * k) (List.length c)) c) st =
  mkHexState (hs_lines st1) (hs_line st1 ++ spaces (hs_indent st1) ++ hex_fields c)
             (hs_buff st1 ++ text_fields c) (hs_indent st1).
Proof.
  intros Hl st1. destruct c as [|x c]; [cbn in Hl; lia|].
  cbn [List.length seq combine fold_left]. cbn [List.length] in Hl.
  unfold step at 2, convert_hex_step.
  replace ((16 * k) mod 16)%nat with 0%nat
    by (symmetry; rewrite Nat.mul_comm; apply Nat.Div0.mod_mul).
  cbn [Nat.eqb].
  replace (Nat.eqb (16 * k) 0) with (Nat.eqb k 0)
    by (destruct k; [reflexivity | symmetry; apply Nat.eqb_neq; lia]).
  replace (S (16 * k)) with (16 * k + 1)%nat by lia.
  rewrite hex_row_inner by lia.
  subst st1. unfold close. destruct (Nat.eqb k 0);
    cbn [hs_lines hs_line hs_buff hs_indent hex_fields text_fields];
    rewrite !str_append_assoc; reflexivity.
Qed.

Lemma rows_fuel_cons fuel (l : list ascii) :
  l <> [] -> rows_fuel (S fuel) l = firstn 16 l :: rows_fuel fuel (skipn 16 l).
Proof. destruct l; [congruence | reflexivity]. Qed.

Lemma rows_fuel_nil fuel : rows_fuel fuel [] = [].
Proof. destruct fuel; reflexivity. Qed.

(** The closing of the last row, as the code writes it after the loop. *)
Let finish (st : hex_state) (n : Z) : string :=
  if plain_text then
    (hs_line st ++ spaces (3 * ((16 - n mod 16) mod 16)) ++ hs_buff st)%string
  else hs_line st.

Lemma pad_last (k r : nat) :
  (1 <= r <= 16)%nat ->
  (16 - Z.of_nat (16 * k + r) mod 16) mod 16 = 16 - Z.of_nat r.
Proof.
  intros Hr.
  replace (Z.of_nat (16 * k + r)) with (Z.of_nat r + Z.of_nat k * 16) by lia.
  rewrite Z_mod_plus_full.
  destruct (Nat.eq_dec r 16) as [->|Hne].
  - reflexivity.
  - rewrite (Z.mod_small (Z.of_nat r) 16) by lia. rewrite Z.mod_small by lia. reflexivity.
Qed.

Lemma finish_row (c : list ascii) k st1 :
  (1 <= List.length c <= 16)%nat ->
  finish (mkHexState (hs_lines st1) (hs_line st1 ++ spaces (hs_indent st1) ++ hex_fields c)
                     (hs_buff st1 ++ text_fields c) (hs_indent st1))
         (Z.of_nat (16 * k + List.length c)) =
  (hs_line st1 ++
   (if plain_text then
      (spaces (hs_indent st1) ++ hex_fields c ++
       spaces (3 * (16 - Z.of_nat (List.length c))) ++ hs_buff st1 ++ text_fields c)%string
    else (spaces (hs_indent st1) ++ hex_fields c)%string))%string.
Proof.
  intros Hl. unfold finish. cbn [hs_line hs_buff]. rewrite pad_last by exact Hl.
  destruct plain_text; repeat rewrite str_append_assoc; reflexivity.
Qed.

Lemma hex_rows_after_first fuel : forall (l : list ascii) k st,
  (List.length l <= fuel)%nat -> (0 < k)%nat -> l <> [] ->
  let st' := fold_left step (combine (seq (16 * k) (List.length l)) l) st in
  hs_lines st' ++ [finish st' (Z.of_nat (16 * k + List.length l))] =
  hs_lines st ++ [close st] ++ map (hex_row sec_indent plain_text) (rows_fuel fuel l).
Proof.
  induction fuel as [|f IH]; intros l k st Hl Hk Hne st'.
  { destruct l; [congruence | cbn in Hl; lia]. }
  rewrite rows_fuel_cons by exact Hne.
  assert (Hlen0 : (1 <= List.length l)%nat) by (destruct l; [congruence | cbn; lia]).
  destruct (Nat.le_gt_cases (List.length l) 16) as [Hsmall | Hbig].
  - rewrite firstn_all2 by exact Hsmall. rewrite skipn_all2 by exact Hsmall.
    rewrite rows_fuel_nil.
    subst st'. rewrite hex_row_start by lia.
    replace (Nat.eqb k 0) with false by (symmetry; apply Nat.eqb_neq; lia).
    rewrite finish_row by lia. cbn [hs_lines hs_line hs_buff hs_indent map].
    rewrite <- app_assoc. f_equal. f_equal. unfold hex_row.
    destruct plain_text; cbn; rewrite ?str_append_nil_r, ?str_append_assoc; reflexivity.
  - assert (Hsplit : l = firstn 16 l ++ skipn 16 l) by (symmetry; apply firstn_skipn).
    set (c := firstn 16 l) in *. set (rest := skipn 16 l) in *.
    assert (Hc : List.length c = 16%nat) by (subst c; rewrite length_firstn; lia).
    assert (Hr : List.length rest = (List.length l - 16)%nat) by (subst rest; apply length_skipn).
    assert (Hne' : rest <> []) by (intros E; rewrite E in Hr; cbn in Hr; lia).
    clearbody c rest.
    assert (Hfold : fold_left step (combine (seq (16 * k) (List.length l)) l) st =
      fold_left step (combine (seq (16 * S k) (List.length rest)) rest)
        (fold_left step (combine (seq (16 * k) (List.length c)) c) st)).
    { replace (List.length l) with (16 + List.length rest)%nat by lia.
      rewrite Hsplit at 1. rewrite seq_app, combine_app by (rewrite length_seq; lia).
      rewrite fold_left_app, Hc.
      replace (16 * k + 16)%nat with (16 * S k)%nat by lia. reflexivity. }
    subst st'. rewrite Hfold.
    rewrite (hex_row_start c k st) by lia.
    replace (Nat.eqb k 0) with false by (symmetry; apply Nat.eqb_neq; lia).
    replace (16 * k + List.length l)%nat with (16 * S k + List.length rest)%nat by lia.
    rewrite (IH rest (S k) _ ltac:(lia) ltac:(lia) Hne').
    cbn [hs_lines hs_line hs_buff hs_indent].
    rewrite <- app_assoc. f_equal. cbn [app map]. f_equal. f_equal.
    unfold close, hex_row. rewrite Hc. change (3 * (16 - Z.of_nat 16)) with 0.
    destruct plain_text; cbn; rewrite ?str_append_nil_r, ?str_append_assoc; reflexivity.
Qed.

(** With [sec_indent] already resolved, the lines of the dump are the
    rows: the first indented by [indent], the others by [sec_indent]. *)
Lemma hex_rows (buf : list ascii) (indent : Z) :
  buf <> [] ->
  let st := fold_left step (combine (seq 0 (List.length buf)) buf) (mkHexState [] "" "  " indent) in
  hs_lines st ++ [finish st (Z.of_nat (List.length buf))] =
  match rows16 buf with
  | [] => [if plain_text then "  "%string else ""%string]
  | r0 :: rs => hex_row indent plain_text r0 :: map (hex_row sec_indent plain_text) rs
  end.
Proof.
  intros Hne st. subst st. unfold rows16.
  assert (Hrows : rows_fuel (List.length buf) buf =
                  firstn 16 buf :: rows_fuel (List.length buf - 1) (skipn 16 buf)).
  { destruct buf as [|a l]; [congruence|]. cbn [List.length].
    rewrite Nat.sub_succ, Nat.sub_0_r. reflexivity. }
  rewrite Hrows.
  assert (Hlen0 : (1 <= List.length buf)%nat) by (destruct buf; [congruence | cbn; lia]).
  set (init := mkHexState [] "" "  " indent).
  change (seq 0 (List.length buf)) with (seq (16 * 0) (List.length buf)).
  destruct (Nat.le_gt_cases (List.length buf) 16) as [Hsmall | Hbig].
  - rewrite firstn_all2, skipn_all2, rows_fuel_nil by exact Hsmall.
    rewrite (hex_row_start buf 0 init) by lia. cbn [Nat.eqb].
    change (Z.of_nat (List.length buf)) with (Z.of_nat (16 * 0 + List.length buf)).
    rewrite finish_row by lia. subst init. cbn [hs_lines hs_line hs_buff hs_indent map app].
    f_equal. unfold hex_row.
    destruct plain_text; cbn; rewrite ?str_append_nil_r, ?str_append_assoc; reflexivity.
  - assert (Hsplit : buf = firstn 16 buf ++ skipn 16 buf) by (symmetry; apply firstn_skipn).
    set (c := firstn 16 buf) in *. set (rest := skipn 16 buf) in *.
    assert (Hc : List.length c = 16%nat) by (subst c; rewrite length_firstn; lia).
    assert (Hr : List.length rest = (List.length buf - 16)%nat)
      by (subst rest; apply length_skipn).
    assert (Hne' : rest <> []) by (intros E; rewrite E in Hr; cbn in Hr; lia).
    clearbody c rest.
    assert (Hfold : fold_left step (combine (seq (16 * 0) (List.length buf)) buf) init =
      fold_left step (combine (seq (16 * 1) (List.length rest)) rest)
        (fold_left step (combine (seq (16 * 0) (List.length c)) c) init)).
    { replace (List.length buf) with (16 + List.length rest)%nat by lia.
      rewrite Hsplit at 1. rewrite seq_app, combine_app by (rewrite length_seq; lia).
      rewrite fold_left_app, Hc. reflexivity. }
    rewrite Hfold. rewrite (hex_row_start c 0 init) by lia. cbn [Nat.eqb].
    replace (List.length buf) with (16 * 1 + List.length rest)%nat by lia.
    rewrite (hex_rows_after_first (16 * 1 + List.length rest - 1) rest 1 _
               ltac:(lia) ltac:(lia) Hne').
    subst init. cbn [hs_lines hs_line hs_buff hs_indent map app]. f_equal.
    unfold close, hex_row. rewrite Hc. change (3 * (16 - Z.of_nat 16)) with 0.
    destruct plain_text; cbn; rewrite ?str_append_nil_r, ?str_append_assoc; reflexivity.
Qed.

End HexDump.

(** [print_hex] (and [convert_hex] with [single_line] False) prints one
    line per row of 16 bytes: the first row indented by [indent], the
    others by [sec_indent] ([indent] when it is -1), each byte as two hex
    digits and a space, and with [plain_text] the text column after
    padding to the width of a full row, so that the text columns of all
    rows line up.  An empty buffer still gives one line, without
    indentation: two spaces with [plain_text], empty otherwise. *)
Theorem print_hex_rows (buf : list ascii) (indent sec_indent : Z) (plain_text : bool) :
  print_hex buf indent sec_indent plain_text =
  match rows16 buf with
  | [] => [if plain_text then "  "%string else ""%string]
  | r0 :: rs =>
      hex_row indent plain_text r0 ::
      map (hex_row (if sec_indent =? -1 then indent else sec_indent) plain_text) rs
  end.
Proof.
  unfold print_hex, convert_hex, convert_hex_lines. cbv zeta.
  destruct buf as [|a l] eqn:Hbuf.
  - destruct plain_text; reflexivity.
  - rewrite <- Hbuf.
    exact (hex_rows (if sec_indent =? -1 then indent else sec_indent) plain_text buf indent
             ltac:(rewrite Hbuf; discriminate)).
Qed.

(** The source is the two boxes above; the hook raises [UnexpectedEOF] on
    the first box, so the second is never reached. *)
Lemma parse_hook_exception_propagates_witness :
  exists s', parse 3 (fun ctx _ _ => (Some UnexpectedEOF, infile_pos ctx))
               (new_jbox None (encode_boxes walk_witness_boxes) 0 0) = (inl UnexpectedEOF, s') /\
    printed s' = [(0, list_ascii_of_string "jp2h")].
Proof.
  assert (Hwf : well_formed_box (list_ascii_of_string "jp2h", bytes_of [1; 2]))
    by (unfold well_formed_box; cbn; split; [reflexivity|]; split; [reflexivity|lia]).
  destruct (parse_hook_exception_propagates (fun ctx _ _ => (Some UnexpectedEOF, infile_pos ctx))
              (new_jbox None (encode_boxes walk_witness_boxes) 0 0)
              (list_ascii_of_string "jp2h") (bytes_of [1; 2])
              (encode_box (list_ascii_of_string "free") []) UnexpectedEOF 2
              (fun _ _ => eq_refl) (Z.le_refl 0) (or_introl eq_refl)
              Hwf eq_refl)
    as [s' [Hrun Hpr]].
  exists s'. split; [exact Hrun|]. rewrite Hpr. reflexivity.
Defined.
